(** * Mock betting: ledger and settlement engine of [src/src/App.tsx]

    A shallow embedding of the ledger-affecting code of the React component
    [App]: the profit calculator, the settlement-criteria explainer and the
    three handlers that write to the record store ([loginWithUsername],
    [handlePlaceBet], [handleSettleBet]).

    Numbers are JavaScript numbers, that is IEEE 754 binary64 values, and are
    modelled by Rocq's primitive [float]s, whose operations are the same
    correctly rounded binary64 operations.  The record store (Supabase) is
    modelled by four tables held in lists; the React state of the component is
    a record that the handlers transform. *)

From Stdlib Require Import ZArith List String Ascii Bool Lia Floats.
From Stdlib Require Uint63.
Import ListNotations.

(** Decimal literals such as [90.91] stand for the nearest binary64 value. *)
Set Warnings "-inexact-float".

(** ** JavaScript numbers and the built-ins the component calls *)

Module JS.

Definition number := float.

(** [isNaN(x)] *)
Definition isNaN (x : number) : bool := is_nan x.

(** The number whose value is the integer [z], for [0 <= z < 2^53]. *)
Definition of_Z (z : Z) : number := of_uint63 (Uint63.of_Z z).

Module Math.

(** [Math.abs(x)] *)
Definition abs (x : number) : number := PrimFloat.abs x.

(** [Math.floor(x)], computed on the exact value [(-1)^s * m * 2^e] of [x]. *)
Definition floor (x : number) : number :=
  match Prim2SF x with
  | S754_finite s m e =>
      if (0 <=? e)%Z then x
      else
        let q := Z.shiftr (Zpos m) (- e) in
        let exact := (Z.shiftl q (- e) =? Zpos m)%Z in
        if s then (if exact then x else (- of_Z (q + 1))%float) else of_Z q
  | _ => x
  end.

End Math.

(** [x % 1]: the fractional part of [x] with the sign of [x]; [NaN] when [x]
    is not finite. *)
Definition mod1 (x : number) : number :=
  match Prim2SF x with
  | S754_nan | S754_infinity _ => nan
  | S754_zero _ => x
  | S754_finite s m e =>
      let r := if (0 <=? e)%Z then 0%Z else Z.land (Zpos m) (Z.ones (- e)) in
      let f := Z.ldexp (of_Z r) e in
      if s then (- f)%float else f
  end.

(** The text [x.toFixed(2)] produces, by what it denotes: ["NaN"],
    ["Infinity"] or ["-Infinity"], a decimal with two fractional digits (a
    sign and a count of hundredths), or, from [1e21] on, the shortest decimal
    that reads back as [x]. *)
Inductive decimal :=
| DNaN
| DInfinity (neg : bool)
| DFixed (neg : bool) (hundredths : Z)
| DShortest (x : number).

Definition ten21 : Z := 10 ^ 21.

(** [x.toFixed(2)]: for [|x| < 1e21] the integer [n] for which [n / 100 - |x|]
    is closest to zero, the larger one when two are equally close; the sign is
    kept when [x < 0], so [-0] prints as ["0.00"]. *)
Definition toFixed2 (x : number) : decimal :=
  match Prim2SF x with
  | S754_nan => DNaN
  | S754_infinity s => DInfinity s
  | S754_zero _ => DFixed false 0
  | S754_finite s m e =>
      if (0 <=? e)%Z then
        if (ten21 <=? Z.shiftl (Zpos m) e)%Z then DShortest x
        else DFixed s (100 * Z.shiftl (Zpos m) e)
      else
        DFixed s ((200 * Zpos m + Z.shiftl 1 (- e)) / Z.shiftl 1 (1 - e))
  end.

(** [Number(text)] on such a text: the binary64 value nearest to the decimal
    (ties to even), which is the correctly rounded quotient of the count of
    hundredths by one hundred. *)
Definition Number (d : decimal) : number :=
  match d with
  | DNaN => nan
  | DInfinity s => if s then neg_infinity else infinity
  | DShortest x => x
  | DFixed s n =>
      match n with
      | Zpos p => SF2Prim (SFdiv prec emax (S754_finite s p 0) (S754_finite false 100 0))
      | _ => if s then neg_zero else zero
      end
  end.

(** [s.trim()], on the ASCII white space and line terminators. *)
Definition is_space (c : ascii) : bool :=
  let n := nat_of_ascii c in
  (Nat.eqb n 32 || (Nat.leb 9 n && Nat.leb n 13))%bool.

Fixpoint trimStart (s : string) : string :=
  match s with
  | String c s' => if is_space c then trimStart s' else s
  | EmptyString => EmptyString
  end.

Fixpoint trimEnd (s : string) : string :=
  match s with
  | String c s' =>
      match trimEnd s' with
      | EmptyString => if is_space c then EmptyString else String c EmptyString
      | t => String c t
      end
  | EmptyString => EmptyString
  end.

Definition trim (s : string) : string := trimEnd (trimStart s).

End JS.

Import JS.

(** ** Row types of [App.tsx]

    Every row type is a record in a module of its name, so that the fields
    keep the names they have in the source. *)

(** Row identifiers are generated by the store; a table gives its next row
    the number of rows it already holds. *)
Definition row_id := nat.

Module UserRow.
Record t := mk {
  id : row_id;
  username : string;
  display_name : option string;
  starting_balance : number;
  current_balance : number
}.
Definition with_current_balance (b : number) (u : t) : t :=
  mk (id u) (username u) (display_name u) (starting_balance u) b.
End UserRow.

Module TransactionInsert.
Record t := mk {
  user_id : row_id;
  type : string;
  amount : number;
  balance_after : number;
  bet_id : option row_id
}.
End TransactionInsert.

Module GameInfo.
Record t := mk {
  home_team : string;
  away_team : string
}.
End GameInfo.

(** The columns [season], [week] and [kickoff_at] of a game are written once
    by [ensureGameInDb] and never read by the component; they are left out. *)
Module GameRow.
Record t := mk {
  id : row_id;
  home_team : string;
  away_team : string;
  external_game_id : option string
}.
End GameRow.

Inductive Side := HOME | AWAY.

Inductive SettleResult := WON | LOST | PUSH.

(** The string a [SettleResult] is in the source. *)
Definition status_of (r : SettleResult) : string :=
  match r with
  | WON => "WON"
  | LOST => "LOST"
  | PUSH => "PUSH"
  end.

Module BetRow.
Record t := mk {
  id : row_id;
  user_id : row_id;
  game_id : row_id;
  side : Side;
  team_name : string;
  spread_line : number;
  odds_american : number;
  stake : number;
  status : string;
  placed_at : string;
  settled_at : option string;
  payout : option number;
  profit : option number;
  fair_profit : option number;
  fair_payout : option number;
  game : option GameInfo.t
}.
(** The joined column [game:games(home_team, away_team)] of [fetchMyBets]. *)
Definition with_game (g : option GameInfo.t) (b : t) : t :=
  mk (id b) (user_id b) (game_id b) (side b) (team_name b) (spread_line b)
     (odds_american b) (stake b) (status b) (placed_at b) (settled_at b)
     (payout b) (profit b) (fair_profit b) (fair_payout b) g.
End BetRow.

Module BetInsert.
Record t := mk {
  user_id : row_id;
  game_id : row_id;
  side : Side;
  team_name : string;
  spread_line : number;
  odds_american : number;
  stake : number
}.
End BetInsert.

(** Modelled from the spec: the quote types [SpreadSide] and [NflSpreadGame]
    of [./oddsApi], of which the component reads these fields: per game the
    external identifier, the home and away team names and, for each side, an
    optional quote of team name, point and American price. *)
Module SpreadSide.
Record t := mk {
  teamName : string;
  point : number;
  price : number
}.
End SpreadSide.

Module NflSpreadGame.
Record t := mk {
  id : string;
  homeTeam : string;
  awayTeam : string;
  commenceTime : string;
  homeSpread : option SpreadSide.t;
  awaySpread : option SpreadSide.t
}.
End NflSpreadGame.

Module SelectedBet.
Record t := mk {
  game : NflSpreadGame.t;
  side : Side;
  spread : SpreadSide.t
}.
End SelectedBet.

(** ** The pure functions *)

Local Open Scope float_scope.

(** [calculateProfit], lines 75-81. *)
Definition calculateProfit (stake odds : number) : number :=
  if 0 <? odds then stake * (odds / 100)
  else stake * (100 / Math.abs odds).

Section Explainer.

(** [`${x}`] for a number [x]: the built-in conversion of a number to text. *)
Variable toString : number -> string.

Local Open Scope string_scope.

(** [getSpreadExplanation], lines 83-115. *)
Definition getSpreadExplanation (bet : BetRow.t) : string :=
  match BetRow.game bet with
  | None => ""
  | Some g =>
      let home := GameInfo.home_team g in
      let away := GameInfo.away_team g in
      let line := BetRow.spread_line bet in
      let absLine := Math.abs line in
      let lineStr := if (0 <? line)%float then "+" ++ toString line else toString line in
      let betTeam := match BetRow.side bet with HOME => home | AWAY => away end in
      let oppTeam := match BetRow.side bet with HOME => away | AWAY => home end in
      if (line =? 0)%float then
        "You bet " ++ betTeam ++ " (pick'em). If " ++ betTeam
        ++ " win, select WON. If " ++ oppTeam
        ++ " win, select LOST. If the game ends tied, select PUSH."
      else if (line <? 0)%float then
        let hasHook := negb (mod1 absLine =? 0)%float in
        if hasHook then
          let needed := (Math.floor absLine + 1)%float in
          "You bet " ++ betTeam ++ " " ++ lineStr ++ ". If " ++ betTeam
          ++ " win by " ++ toString needed
          ++ " or more points, select WON. If " ++ oppTeam ++ " win or "
          ++ betTeam ++ " win by " ++ toString (needed - 1)%float
          ++ " or fewer, select LOST."
        else
          "You bet " ++ betTeam ++ " " ++ lineStr ++ ". If " ++ betTeam
          ++ " win by more than " ++ toString absLine
          ++ " points, select WON. If they win by exactly " ++ toString absLine
          ++ ", select PUSH. If they win by fewer than " ++ toString absLine
          ++ " points or lose, select LOST."
      else
        let hasHook := negb (mod1 absLine =? 0)%float in
        if hasHook then
          let maxLose := Math.floor absLine in
          let bust := (maxLose + 1)%float in
          "You bet " ++ betTeam ++ " " ++ lineStr ++ ". If " ++ betTeam
          ++ " win or lose by " ++ toString maxLose
          ++ " points or fewer, select WON. If they lose by " ++ toString bust
          ++ " or more, select LOST."
        else
          "You bet " ++ betTeam ++ " " ++ lineStr ++ ". If " ++ betTeam
          ++ " win or lose by fewer than " ++ toString absLine
          ++ " points, select WON. If they lose by exactly " ++ toString absLine
          ++ ", select PUSH. If they lose by more than " ++ toString absLine
          ++ ", select LOST."
  end.

End Explainer.

(** ** The record store

    Four tables, each a list of rows in insertion order.  Only what the
    component does with the store is modelled: lookup by a unique key, insert
    with a generated identifier, update by identifier, and the filtered select
    of [fetchMyBets].  A call to the store that is answered with a transport
    error is outside the model; an update that matches no row is inside it. *)

Module Store.
Record t := mk {
  users : list UserRow.t;
  games : list GameRow.t;
  bets : list BetRow.t;
  transactions : list TransactionInsert.t
}.
Definition empty : t := mk [] [] [] [].
Definition with_users (us : list UserRow.t) (s : t) : t :=
  mk us (games s) (bets s) (transactions s).
Definition with_games (gs : list GameRow.t) (s : t) : t :=
  mk (users s) gs (bets s) (transactions s).
Definition with_bets (bs : list BetRow.t) (s : t) : t :=
  mk (users s) (games s) bs (transactions s).
Definition with_transactions (ts : list TransactionInsert.t) (s : t) : t :=
  mk (users s) (games s) (bets s) ts.
End Store.

(** [from('users').select('*').eq('username', name).maybeSingle()] *)
Definition select_user_by_username (name : string) (s : Store.t) : option UserRow.t :=
  find (fun u => String.eqb (UserRow.username u) name) (Store.users s).

(** [from('users').update({ current_balance }).eq('id', i).select().single()]:
    the updated row and the store, or nothing when no row has this id. *)
Definition update_user_balance (i : row_id) (b : number) (s : Store.t)
  : option (UserRow.t * Store.t) :=
  match find (fun u => Nat.eqb (UserRow.id u) i) (Store.users s) with
  | Some u =>
      Some (UserRow.with_current_balance b u,
            Store.with_users
              (map (fun u => if Nat.eqb (UserRow.id u) i
                             then UserRow.with_current_balance b u else u)
                   (Store.users s)) s)
  | None => None
  end.

(** [from('transactions').insert(tx)] *)
Definition insert_transaction (tx : TransactionInsert.t) (s : Store.t) : Store.t :=
  Store.with_transactions (Store.transactions s ++ [tx]) s.

(** [from('games').select('*').eq('external_game_id', ext).maybeSingle()] *)
Definition select_game_by_external_id (ext : string) (s : Store.t) : option GameRow.t :=
  find (fun g => match GameRow.external_game_id g with
                 | Some e => String.eqb e ext
                 | None => false
                 end) (Store.games s).

(** The fields of a settled bet that [handleSettleBet] writes. *)
Definition settle_fields (result : string) (payout profit fairProfit fairPayout : number)
    (now : string) (b : BetRow.t) : BetRow.t :=
  BetRow.mk (BetRow.id b) (BetRow.user_id b) (BetRow.game_id b) (BetRow.side b)
    (BetRow.team_name b) (BetRow.spread_line b) (BetRow.odds_american b)
    (BetRow.stake b) result (BetRow.placed_at b) (Some now)
    (Some payout) (Some profit) (Some fairProfit) (Some fairPayout) (BetRow.game b).

(** [from('bets').update({ ... }).eq('id', i).select().single()] *)
Definition update_bet (i : row_id) (f : BetRow.t -> BetRow.t) (s : Store.t)
  : option (BetRow.t * Store.t) :=
  match find (fun b => Nat.eqb (BetRow.id b) i) (Store.bets s) with
  | Some b =>
      Some (f b,
            Store.with_bets
              (map (fun b => if Nat.eqb (BetRow.id b) i then f b else b)
                   (Store.bets s)) s)
  | None => None
  end.

(** [from('bets').select('*, game:games(home_team, away_team)')
      .eq('user_id', userId).order('placed_at', { ascending: false })]:
    the user's bets, latest placement first, each with its game joined. *)
Definition select_bets_of_user (userId : row_id) (s : Store.t) : list BetRow.t :=
  map (fun b =>
         BetRow.with_game
           (option_map (fun g => GameInfo.mk (GameRow.home_team g) (GameRow.away_team g))
              (find (fun g => Nat.eqb (GameRow.id g) (BetRow.game_id b)) (Store.games s)))
           b)
      (rev (filter (fun b => Nat.eqb (BetRow.user_id b) userId) (Store.bets s))).

(** ** The component: its state and its handlers *)

(** The React state the handlers read or write.  The loading flags
    ([loadingUser], [placingBet], [settlingBetId]) are reset by every handler
    before it returns, and the leaderboard and odds caches are read-only
    views; none of them is kept. *)
Module App.
Record t := mk {
  db : Store.t;
  currentUser : option UserRow.t;
  error : string;
  selectedBet : option SelectedBet.t;
  stakeInput : string;
  betError : string;
  myBets : list BetRow.t
}.
Definition initial : t := mk Store.empty None "" None "" "" [].
Definition setBetError (msg : string) (a : t) : t :=
  mk (db a) (currentUser a) (error a) (selectedBet a) (stakeInput a) msg (myBets a).
Definition setStakeInput (s : string) (a : t) : t :=
  mk (db a) (currentUser a) (error a) (selectedBet a) s (betError a) (myBets a).
End App.

Section Handlers.

(** [parseFloat], the built-in that reads the stake field. *)
Variable parseFloat : string -> number.

(** Modelled from the spec: the defaults of the columns [starting_balance]
    and [current_balance] of the [users] table, whose schema is not part of
    the sources.  A user is created with the INITIAL transaction seeding the
    starting balance, and the current balance equals the latest
    [balance_after]: both columns start at the same amount. *)
Variable initial_balance : number.

(** [fetchMyBets] *)
Definition fetchMyBets (userId : row_id) (a : App.t) : App.t :=
  App.mk (App.db a) (App.currentUser a) (App.error a) (App.selectedBet a)
    (App.stakeInput a) (App.betError a) (select_bets_of_user userId (App.db a)).

(** [loginWithUsername], lines 192-249. *)
Definition loginWithUsername (rawName : string) (a : App.t) : App.t :=
  let trimmed := trim rawName in
  if String.eqb trimmed "" then a
  else
    match select_user_by_username trimmed (App.db a) with
    | Some user =>
        fetchMyBets (UserRow.id user)
          (App.mk (App.db a) (Some user) "" (App.selectedBet a)
             (App.stakeInput a) (App.betError a) (App.myBets a))
    | None =>
        let newUser :=
          UserRow.mk (List.length (Store.users (App.db a))) trimmed (Some trimmed)
            initial_balance initial_balance in
        let db1 := Store.with_users (Store.users (App.db a) ++ [newUser]) (App.db a) in
        let tx :=
          TransactionInsert.mk (UserRow.id newUser) "INITIAL"
            (UserRow.starting_balance newUser) (UserRow.current_balance newUser) None in
        let db2 := insert_transaction tx db1 in
        fetchMyBets (UserRow.id newUser)
          (App.mk db2 (Some newUser) "" (App.selectedBet a)
             (App.stakeInput a) (App.betError a) (App.myBets a))
    end.

(** [openBetSlip], lines 283-298. *)
Definition openBetSlip (game : NflSpreadGame.t) (side : Side) (a : App.t) : App.t :=
  match App.currentUser a with
  | None => App.setBetError "Log in first to place a bet." a
  | Some _ =>
      match (match side with
             | HOME => NflSpreadGame.homeSpread game
             | AWAY => NflSpreadGame.awaySpread game
             end) with
      | None => App.setBetError "No spread available for that side." a
      | Some spread =>
          App.mk (App.db a) (App.currentUser a) (App.error a)
            (Some (SelectedBet.mk game side spread)) "" "" (App.myBets a)
      end
  end.

(** [ensureGameInDb], lines 300-337. *)
Definition ensureGameInDb (game : NflSpreadGame.t) (s : Store.t) : GameRow.t * Store.t :=
  match select_game_by_external_id (NflSpreadGame.id game) s with
  | Some existing => (existing, s)
  | None =>
      let inserted :=
        GameRow.mk (List.length (Store.games s)) (NflSpreadGame.homeTeam game)
          (NflSpreadGame.awayTeam game) (Some (NflSpreadGame.id game)) in
      (inserted, Store.with_games (Store.games s ++ [inserted]) s)
  end.

(** [from('bets').insert(betInsert).select().single()].  Modelled from the
    spec: the column defaults of the [bets] table, whose schema is not part of
    the sources: a bet is created PENDING, with its settlement fields null. *)
Definition insert_bet (b : BetInsert.t) (now : string) (s : Store.t) : BetRow.t * Store.t :=
  let row :=
    BetRow.mk (List.length (Store.bets s)) (BetInsert.user_id b) (BetInsert.game_id b)
      (BetInsert.side b) (BetInsert.team_name b) (BetInsert.spread_line b)
      (BetInsert.odds_american b) (BetInsert.stake b) "PENDING" now
      None None None None None None in
  (row, Store.with_bets (Store.bets s ++ [row]) s).

(** [handlePlaceBet], lines 339-415; [now] is the store's clock at the
    insertion of the bet.  When the update of the balance finds no row, the
    message shown is the store's, if it sends one, else the one below. *)
Definition handlePlaceBet (now : string) (a : App.t) : App.t :=
  match App.currentUser a, App.selectedBet a with
  | Some currentUser, Some selectedBet =>
      let parsedStake := parseFloat (App.stakeInput a) in
      if isNaN parsedStake || (parsedStake <=? 0) then
        App.setBetError "Enter a valid stake." a
      else if UserRow.current_balance currentUser <? parsedStake then
        App.setBetError "Stake exceeds your current balance." a
      else
        let (gameRow, db1) := ensureGameInDb (SelectedBet.game selectedBet) (App.db a) in
        let betInsert :=
          BetInsert.mk (UserRow.id currentUser) (GameRow.id gameRow)
            (SelectedBet.side selectedBet)
            (SpreadSide.teamName (SelectedBet.spread selectedBet))
            (SpreadSide.point (SelectedBet.spread selectedBet))
            (SpreadSide.price (SelectedBet.spread selectedBet))
            parsedStake in
        let (betData, db2) := insert_bet betInsert now db1 in
        let newBalance := UserRow.current_balance currentUser - parsedStake in
        let tx :=
          TransactionInsert.mk (UserRow.id currentUser) "BET_PLACED"
            (- parsedStake) newBalance (Some (BetRow.id betData)) in
        let db3 := insert_transaction tx db2 in
        match update_user_balance (UserRow.id currentUser) newBalance db3 with
        | None =>
            App.mk db3 (App.currentUser a) (App.error a) (App.selectedBet a)
              (App.stakeInput a) "Failed to update user balance" (App.myBets a)
        | Some (updatedUser, db4) =>
            fetchMyBets (UserRow.id currentUser)
              (App.mk db4 (Some updatedUser) (App.error a) None "" "" (App.myBets a))
        end
  | _, _ => a
  end.

(** [handleSettleBet], lines 417-514; [now] is [new Date().toISOString()]. *)
Definition handleSettleBet (now : string) (bet : BetRow.t) (result : SettleResult)
    (a : App.t) : App.t :=
  match App.currentUser a with
  | None => App.setBetError "Log in first to settle bets." a
  | Some currentUser =>
      if negb (String.eqb (BetRow.status bet) "PENDING") then
        App.setBetError "Bet is already settled." a
      else
        let '(payout, profit) :=
          match result with
          | WON =>
              let rawProfit := calculateProfit (BetRow.stake bet) (BetRow.odds_american bet) in
              let profit := Number (toFixed2 rawProfit) in
              (BetRow.stake bet + profit, profit)
          | LOST => (0, - BetRow.stake bet)
          | PUSH => (BetRow.stake bet, 0)
          end in
        let '(fairProfit, fairPayout) :=
          match result with
          | WON => (BetRow.stake bet, BetRow.stake bet + BetRow.stake bet)
          | LOST => (- BetRow.stake bet, 0)
          | PUSH => (0, BetRow.stake bet)
          end in
        match update_bet (BetRow.id bet)
                (settle_fields (status_of result) payout profit fairProfit fairPayout now)
                (App.db a) with
        | None => App.setBetError "Failed to update bet" a
        | Some (updatedBet, db1) =>
            let amount := payout in
            let newBalance := UserRow.current_balance currentUser + amount in
            let tx :=
              TransactionInsert.mk (UserRow.id currentUser) "BET_SETTLED"
                amount newBalance (Some (BetRow.id bet)) in
            let db2 := insert_transaction tx db1 in
            match update_user_balance (UserRow.id currentUser) newBalance db2 with
            | None =>
                App.mk db2 (App.currentUser a) (App.error a) (App.selectedBet a)
                  (App.stakeInput a) "Failed to update user balance" (App.myBets a)
            | Some (updatedUser, db3) =>
                fetchMyBets (UserRow.id currentUser)
                  (App.mk db3 (Some updatedUser) (App.error a) (App.selectedBet a)
                     (App.stakeInput a) "" (App.myBets a))
            end
        end
  end.

(** What a user of the page can do to the ledger, and the run of a sequence
    of such actions from a state. *)
Inductive action :=
| Login (rawName : string)
| OpenBetSlip (game : NflSpreadGame.t) (side : Side)
| TypeStake (text : string)
| PlaceBet (now : string)
| SettleBet (now : string) (bet : BetRow.t) (result : SettleResult).

Definition step (a : App.t) (act : action) : App.t :=
  match act with
  | Login rawName => loginWithUsername rawName a
  | OpenBetSlip game side => openBetSlip game side a
  | TypeStake text => App.setStakeInput text a
  | PlaceBet now => handlePlaceBet now a
  | SettleBet now bet result => handleSettleBet now bet result a
  end.

Definition run (acts : list action) (a : App.t) : App.t := fold_left step acts a.

End Handlers.

(** ** Notions the properties are stated with *)

(** The two tests [handlePlaceBet] makes on the parsed stake, as one
    condition: neither test rejects it. *)
Definition stake_accepted (parsedStake balance : number) : bool :=
  negb (isNaN parsedStake || (parsedStake <=? 0)) && negb (balance <? parsedStake).


(** The settlement table of the spec, column by column; for WON the profit
    is the calculator's, rounded to two decimals, and the fair payout is
    twice the stake. *)
Definition table_profit (r : SettleResult) (stake odds : number) : number :=
  match r with
  | WON => Number (toFixed2 (calculateProfit stake odds))
  | LOST => - stake
  | PUSH => 0
  end.

Definition table_payout (r : SettleResult) (stake odds : number) : number :=
  match r with
  | WON => stake + table_profit WON stake odds
  | LOST => 0
  | PUSH => stake
  end.

Definition table_fairProfit (r : SettleResult) (stake : number) : number :=
  match r with
  | WON => stake
  | LOST => - stake
  | PUSH => 0
  end.

Definition table_fairPayout (r : SettleResult) (stake : number) : number :=
  match r with
  | WON => 2 * stake
  | LOST => 0
  | PUSH => stake
  end.

(** The sign of a number: [-1], [0] or [1]. *)
Definition sign (x : number) : Z :=
  if x <? 0 then (-1)%Z else if 0 <? x then 1%Z else 0%Z.

(** The sum of the amounts of all the transactions recorded for a user, and
    the balance the spec's invariant expects from it. *)
Definition sum_of_amounts (userId : row_id) (txs : list TransactionInsert.t) : number :=
  fold_left (fun acc tx => acc + TransactionInsert.amount tx)
    (filter (fun tx => Nat.eqb (TransactionInsert.user_id tx) userId) txs) 0.

Definition spec_balance (u : UserRow.t) (txs : list TransactionInsert.t) : number :=
  UserRow.starting_balance u + sum_of_amounts (UserRow.id u) txs.

(** The balance the ledger gives a user: the starting balance to which the
    amounts of the user's bet transactions (every transaction but the INITIAL
    one) are added in the order they were recorded. *)
Definition is_bet_transaction_of (userId : row_id) (tx : TransactionInsert.t) : bool :=
  Nat.eqb (TransactionInsert.user_id tx) userId
  && negb (String.eqb (TransactionInsert.type tx) "INITIAL").

Definition ledger_balance (u : UserRow.t) (txs : list TransactionInsert.t) : number :=
  fold_left (fun acc tx => acc + TransactionInsert.amount tx)
    (filter (is_bet_transaction_of (UserRow.id u)) txs)
    (UserRow.starting_balance u).

(** What holds of the store and the session in every state the component
    reaches: a row's id is its position in its table, a transaction belongs
    to a stored user, every stored balance is the ledger's, and the user of
    the session is a stored row. *)
Definition ids_ok (us : list UserRow.t) (txs : list TransactionInsert.t) : Prop :=
  (forall i u, nth_error us i = Some u -> UserRow.id u = i)
  /\ (forall tx, In tx txs -> (TransactionInsert.user_id tx < List.length us)%nat).

Definition ledger_ok (us : list UserRow.t) (txs : list TransactionInsert.t) : Prop :=
  forall u, In u us -> UserRow.current_balance u = ledger_balance u txs.

Definition consistent (a : App.t) : Prop :=
  ids_ok (Store.users (App.db a)) (Store.transactions (App.db a))
  /\ ledger_ok (Store.users (App.db a)) (Store.transactions (App.db a))
  /\ (forall u, App.currentUser a = Some u -> In u (Store.users (App.db a))).


(** A bet as the data model has it: a finite stake greater than 0, and odds
    that are a number. *)
Definition well_formed_bet (bet : BetRow.t) : bool :=
  is_finite (BetRow.stake bet) && (0 <? BetRow.stake bet)
  && negb (isNaN (BetRow.odds_american bet)).


(** A line has a hook when it has a fractional part. *)
Definition hasHook (x : number) : bool := negb (mod1 x =? 0).

Section CriteriaText.

Variable toString : number -> string.

Local Open Scope string_scope.


End CriteriaText.

(** ** Sample data, for the examples below *)

Local Open Scope string_scope.

(** [parseFloat] on the texts the examples type, and [`${x}`] on the numbers
    they print. *)
Definition sample_parseFloat (text : string) : number :=
  if String.eqb text "100" then 100%float
  else if String.eqb text "900" then 900%float
  else if String.eqb text "0.001" then 0.001%float
  else if String.eqb text "0.1" then 0.1%float
  else if String.eqb text "0.2" then 0.2%float
  else if String.eqb text "Infinity" then infinity
  else nan.

Definition sample_toString (x : number) : string :=
  if (x =? 3)%float then "3"
  else if (x =? 4)%float then "4"
  else if (x =? -3)%float then "-3"
  else if (x =? 3.5)%float then "3.5"
  else if (x =? -3.5)%float then "-3.5"
  else "?".

Definition sample_game : NflSpreadGame.t :=
  NflSpreadGame.mk "game-1" "Jets" "Bills" "2025-09-07T17:00:00Z"
    (Some (SpreadSide.mk "Jets" (-3.5)%float (-110)%float))
    (Some (SpreadSide.mk "Bills" 3.5%float (-110)%float)).

(** A user logs in, picks the home side and stakes 100 of a starting 1000. *)
Definition sample_actions : list action :=
  [Login " alice "; OpenBetSlip sample_game HOME; TypeStake "100"; PlaceBet "t1"].

Definition sample_state : App.t :=
  run sample_parseFloat 1000%float sample_actions App.initial.

Definition sample_user : UserRow.t :=
  UserRow.mk 0%nat "alice" (Some "alice") 1000%float 900%float.

Definition sample_bet : BetRow.t :=
  BetRow.mk 0%nat 0%nat 0%nat HOME "Jets" (-3.5)%float (-110)%float 100%float "PENDING" "t1"
    None None None None None (Some (GameInfo.mk "Jets" "Bills")).

(** The same bet once settled as WON. *)
Definition sample_settled : App.t :=
  handleSettleBet "t2" sample_bet WON sample_state.

Definition sample_won_bet : BetRow.t :=
  BetRow.mk 0%nat 0%nat 0%nat HOME "Jets" (-3.5)%float (-110)%float 100%float "WON" "t1"
    (Some "t2") (Some 190.91%float) (Some 90.91%float) (Some 100%float) (Some 200%float)
    (Some (GameInfo.mk "Jets" "Bills")).

(** A user who has just been created, with a starting balance of 1000. *)
Definition sample_new_user : UserRow.t :=
  UserRow.mk 0%nat "alice" (Some "alice") 1000%float 1000%float.

Definition sample_created : App.t :=
  run sample_parseFloat 1000%float [Login "alice"] App.initial.

(** A stake of a tenth of a cent, settled as WON at odds of -110. *)
Definition sample_tiny_bet : BetRow.t :=
  BetRow.mk 0%nat 0%nat 0%nat HOME "Jets" (-3.5)%float (-110)%float 0.001%float
    "PENDING" "t1" None None None None None (Some (GameInfo.mk "Jets" "Bills")).

Definition sample_tiny_state : App.t :=
  run sample_parseFloat 1000%float
    [Login "alice"; OpenBetSlip sample_game HOME; TypeStake "0.001"; PlaceBet "t1"]
    App.initial.



(** A user stakes 0.1, then 0.2, of a starting 1000. *)
Definition sample_two_stakes : App.t :=
  run sample_parseFloat 1000%float
    [Login "alice";
     OpenBetSlip sample_game HOME; TypeStake "0.1"; PlaceBet "t1";
     OpenBetSlip sample_game AWAY; TypeStake "0.2"; PlaceBet "t2"]
    App.initial.

Local Close Scope string_scope.


(** ** More of the component and of the quote source *)

Local Open Scope string_scope.

(** The fair balance shown under the user's name, lines 516-522: the
    starting balance plus the fair profits of the bets listed, the bets
    without a fair profit left out. *)
Definition fairProfitSum (myBets : list BetRow.t) : number :=
  fold_left
    (fun sum b =>
       (sum + match BetRow.fair_profit b with Some f => f | None => 0%float end)%float)
    (filter (fun b => match BetRow.fair_profit b with Some _ => true | None => false end)
       myBets)
    0%float.

Definition fairBalance (a : App.t) : option number :=
  match App.currentUser a with
  | Some currentUser =>
      Some (UserRow.starting_balance currentUser + fairProfitSum (App.myBets a))%float
  | None => None
  end.

(** What the odds API answers, as [fetchNflSpreadsDraftKings] reads it: a
    list of games, each with its bookmakers, their markets and the outcomes
    of a market.  A field the code guards with [|| []] or [?.] may be
    missing. *)
Module Outcome.
Record t := mk {
  name : string;
  point : number;
  price : number
}.
End Outcome.

Module Market.
Record t := mk {
  key : string;
  outcomes : option (list Outcome.t)
}.
End Market.

Module Bookmaker.
Record t := mk {
  key : string;
  title : option string;
  markets : option (list Market.t)
}.
End Bookmaker.

Module OddsGame.
Record t := mk {
  id : string;
  commence_time : string;
  home_team : string;
  away_team : string;
  bookmakers : option (list Bookmaker.t)
}.
End OddsGame.

(** A game as the quote source returns it: the record the handlers take,
    with the [bookmaker] field that the page only displays beside it. *)
Module QuotedGame.
Record t := mk {
  game : NflSpreadGame.t;
  bookmaker : string
}.
End QuotedGame.

(** [x || []] *)
Definition or_empty {A : Type} (x : option (list A)) : list A :=
  match x with
  | Some l => l
  | None => []
  end.

(** [toSide], the local function of [fetchNflSpreadsDraftKings], lines 904-911. *)
Definition toSide (o : option Outcome.t) : option SpreadSide.t :=
  match o with
  | Some o => Some (SpreadSide.mk (Outcome.name o) (Outcome.point o) (Outcome.price o))
  | None => None
  end.

(** The body of [json.map((game) => ...)] in [fetchNflSpreadsDraftKings],
    lines 874-922. *)
Definition toGame (game : OddsGame.t) : QuotedGame.t :=
  match find (fun b => String.eqb (Bookmaker.key b) "draftkings")
          (or_empty (OddsGame.bookmakers game)) with
  | None =>
      QuotedGame.mk
        (NflSpreadGame.mk (OddsGame.id game) (OddsGame.home_team game)
           (OddsGame.away_team game) (OddsGame.commence_time game) None None)
        "draftkings"
  | Some bookmaker =>
      let spreadsMarket :=
        find (fun m => String.eqb (Market.key m) "spreads")
          (or_empty (Bookmaker.markets bookmaker)) in
      let outcomes :=
        match spreadsMarket with
        | Some m => or_empty (Market.outcomes m)
        | None => []
        end in
      let homeOutcome :=
        find (fun o => String.eqb (Outcome.name o) (OddsGame.home_team game)) outcomes in
      let awayOutcome :=
        find (fun o => String.eqb (Outcome.name o) (OddsGame.away_team game)) outcomes in
      QuotedGame.mk
        (NflSpreadGame.mk (OddsGame.id game) (OddsGame.home_team game)
           (OddsGame.away_team game) (OddsGame.commence_time game)
           (toSide homeOutcome) (toSide awayOutcome))
        (match Bookmaker.title bookmaker with
         | Some t => if String.eqb t "" then Bookmaker.key bookmaker else t
         | None => Bookmaker.key bookmaker
         end)
  end.

(** The games a successful answer gives. *)
Definition toGames (json : list OddsGame.t) : list QuotedGame.t := map toGame json.







Section OnLoad.

Variable initial_balance : number.

(** [decodeURIComponent] *)
Variable decodeURIComponent : string -> string.



End OnLoad.

(** ** Notions the further properties are stated with *)

(** The transactions of a user, in the order they were recorded, and the
    [balance_after] of the latest of them. *)
Definition user_transactions (userId : row_id) (txs : list TransactionInsert.t)
  : list TransactionInsert.t :=
  filter (fun tx => Nat.eqb (TransactionInsert.user_id tx) userId) txs.

Definition latest_balance_after (userId : row_id) (txs : list TransactionInsert.t)
  : option number :=
  match rev (user_transactions userId txs) with
  | tx :: _ => Some (TransactionInsert.balance_after tx)
  | [] => None
  end.

(** The INITIAL transaction [loginWithUsername] records for a new user. *)
Definition initial_transaction_of (u : UserRow.t) : TransactionInsert.t :=
  TransactionInsert.mk (UserRow.id u) "INITIAL" (UserRow.starting_balance u)
    (UserRow.starting_balance u) None.

(** The transactions of one type that refer to a bet. *)
Definition bet_transactions (kind : string) (betId : row_id) (txs : list TransactionInsert.t)
  : list TransactionInsert.t :=
  filter (fun tx =>
            match TransactionInsert.bet_id tx with
            | Some i => Nat.eqb i betId && String.eqb (TransactionInsert.type tx) kind
            | None => false
            end) txs.

(** The fields of a bet that are fixed when it is placed. *)
Definition same_terms (b b' : BetRow.t) : Prop :=
  BetRow.id b' = BetRow.id b
  /\ BetRow.user_id b' = BetRow.user_id b
  /\ BetRow.game_id b' = BetRow.game_id b
  /\ BetRow.side b' = BetRow.side b
  /\ BetRow.team_name b' = BetRow.team_name b
  /\ BetRow.spread_line b' = BetRow.spread_line b
  /\ BetRow.odds_american b' = BetRow.odds_american b
  /\ BetRow.stake b' = BetRow.stake b
  /\ BetRow.placed_at b' = BetRow.placed_at b.

(** An action the page offers in a state: a bet can be settled from its row
    in the list of the user's bets, and only while that row is PENDING
    (lines 619-662). *)
Definition offered (a : App.t) (act : action) : Prop :=
  match act with
  | SettleBet _ bet _ => In bet (App.myBets a) /\ BetRow.status bet = "PENDING"
  | _ => True
  end.

Section Offered.

Variable parseFloat : string -> number.
Variable initial_balance : number.

(** A sequence of actions each of which the page offers when it is taken. *)
Fixpoint all_offered (acts : list action) (a : App.t) : Prop :=
  match acts with
  | [] => True
  | act :: acts' =>
      offered a act /\ all_offered acts' (step parseFloat initial_balance a act)
  end.

End Offered.

(** What holds of the bets, the games and the list of the user's bets in
    every state the component reaches. *)
Definition bets_ok (s : Store.t) : Prop :=
  (forall i b, nth_error (Store.bets s) i = Some b -> BetRow.id b = i)
  /\ (forall tx i, In tx (Store.transactions s) -> TransactionInsert.bet_id tx = Some i ->
        (i < List.length (Store.bets s))%nat).

(** The tables a handler leaves: the users with the balance of one of them
    written, the bets with the fields of one of them written. *)
Definition credited (i : row_id) (b : number) (us : list UserRow.t) : list UserRow.t :=
  map (fun u => if Nat.eqb (UserRow.id u) i then UserRow.with_current_balance b u else u) us.

Definition rewritten (i : row_id) (f : BetRow.t -> BetRow.t) (bs : list BetRow.t)
  : list BetRow.t :=
  map (fun b => if Nat.eqb (BetRow.id b) i then f b else b) bs.

(** A handler that stops at a guard changes at most the messages and the
    bet slip. *)
Definition unchanged (a a' : App.t) : Prop :=
  App.db a' = App.db a /\ App.currentUser a' = App.currentUser a
  /\ App.myBets a' = App.myBets a.

(** What the handlers do when no guard stops them, table by table:
    [loginWithUsername] finds the user or creates it, [handlePlaceBet]
    records the bet, [handleSettleBet] settles the stored bet that has the
    id of the row it is given. *)
Definition entered (name : string) (a a' : App.t) : Prop :=
  exists u,
    select_user_by_username name (App.db a) = Some u
    /\ App.db a' = App.db a /\ App.currentUser a' = Some u
    /\ App.myBets a' = select_bets_of_user (UserRow.id u) (App.db a').

Definition created (initial_balance : number) (name : string) (a a' : App.t) : Prop :=
  let u := UserRow.mk (List.length (Store.users (App.db a))) name (Some name)
             initial_balance initial_balance in
  select_user_by_username name (App.db a) = None
  /\ App.db a'
     = Store.mk (Store.users (App.db a) ++ [u])%list (Store.games (App.db a))
         (Store.bets (App.db a))
         (Store.transactions (App.db a) ++ [initial_transaction_of u])%list
  /\ App.currentUser a' = Some u
  /\ App.myBets a' = select_bets_of_user (UserRow.id u) (App.db a').

Definition placed (parsedStake : number) (now : string) (a a' : App.t) : Prop :=
  exists cu sel,
    let newBalance := (UserRow.current_balance cu - parsedStake)%float in
    let game := ensureGameInDb (SelectedBet.game sel) (App.db a) in
    App.currentUser a = Some cu /\ App.selectedBet a = Some sel
    /\ stake_accepted parsedStake (UserRow.current_balance cu) = true
    /\ Store.users (App.db a')
       = credited (UserRow.id cu) newBalance (Store.users (App.db a))
    /\ Store.games (App.db a') = Store.games (snd game)
    /\ Store.bets (App.db a')
       = (Store.bets (App.db a)
          ++ [BetRow.mk (List.length (Store.bets (App.db a))) (UserRow.id cu)
                (GameRow.id (fst game)) (SelectedBet.side sel)
                (SpreadSide.teamName (SelectedBet.spread sel))
                (SpreadSide.point (SelectedBet.spread sel))
                (SpreadSide.price (SelectedBet.spread sel))
                parsedStake "PENDING" now None None None None None None])%list
    /\ Store.transactions (App.db a')
       = (Store.transactions (App.db a)
          ++ [TransactionInsert.mk (UserRow.id cu) "BET_PLACED" (- parsedStake)
                newBalance (Some (List.length (Store.bets (App.db a))))])%list
    /\ App.currentUser a' = Some (UserRow.with_current_balance newBalance cu)
    /\ App.myBets a' = select_bets_of_user (UserRow.id cu) (App.db a').

Definition settled (now : string) (bet : BetRow.t) (result : SettleResult)
    (a a' : App.t) : Prop :=
  exists cu stored,
    let payout := table_payout result (BetRow.stake bet) (BetRow.odds_american bet) in
    let newBalance := (UserRow.current_balance cu + payout)%float in
    App.currentUser a = Some cu /\ BetRow.status bet = "PENDING"
    /\ find (fun b => Nat.eqb (BetRow.id b) (BetRow.id bet)) (Store.bets (App.db a))
       = Some stored
    /\ Store.users (App.db a')
       = credited (UserRow.id cu) newBalance (Store.users (App.db a))
    /\ Store.games (App.db a') = Store.games (App.db a)
    /\ Store.bets (App.db a')
       = rewritten (BetRow.id bet)
           (settle_fields (status_of result) payout
              (table_profit result (BetRow.stake bet) (BetRow.odds_american bet))
              (table_fairProfit result (BetRow.stake bet))
              (table_fairPayout result (BetRow.stake bet)) now)
           (Store.bets (App.db a))
    /\ Store.transactions (App.db a')
       = (Store.transactions (App.db a)
          ++ [TransactionInsert.mk (UserRow.id cu) "BET_SETTLED" payout newBalance
                (Some (BetRow.id bet))])%list
    /\ App.currentUser a' = Some (UserRow.with_current_balance newBalance cu)
    /\ App.myBets a' = select_bets_of_user (UserRow.id cu) (App.db a').

(** The list of bets the page shows is the logged-in user's, read from the
    store. *)
Definition shown_ok (a : App.t) : Prop :=
  match App.currentUser a with
  | Some u => App.myBets a = select_bets_of_user (UserRow.id u) (App.db a)
  | None => App.myBets a = []
  end.

(** No two users share a name, no two games an external id. *)
Definition keys_unique (s : Store.t) : Prop :=
  NoDup (map UserRow.username (Store.users s))
  /\ NoDup (map GameRow.external_game_id (Store.games s)).

(** The current balance of every user is the [balance_after] of the user's
    latest transaction. *)
Definition latest_ok (us : list UserRow.t) (txs : list TransactionInsert.t) : Prop :=
  forall u, In u us ->
    latest_balance_after (UserRow.id u) txs = Some (UserRow.current_balance u).

(** A transaction of a bet: a BET_PLACED or a BET_SETTLED one, with the id
    of its bet. *)
Definition is_bet_transaction (tx : TransactionInsert.t) : bool :=
  match TransactionInsert.bet_id tx with
  | Some _ =>
      String.eqb (TransactionInsert.type tx) "BET_PLACED"
      || String.eqb (TransactionInsert.type tx) "BET_SETTLED"
  | None => false
  end.

(** The transactions of every user start with the INITIAL one, which seeds
    the starting balance, and go on with transactions of bets only. *)
Definition ledger_shape (initial_balance : number) (us : list UserRow.t)
    (txs : list TransactionInsert.t) : Prop :=
  forall u, In u us ->
    UserRow.starting_balance u = initial_balance
    /\ exists rest,
         user_transactions (UserRow.id u) txs = initial_transaction_of u :: rest
         /\ forallb is_bet_transaction rest = true.

(** Every bet is accounted for in the ledger: one BET_PLACED transaction of
    its user for minus its stake, and, once it is settled, one BET_SETTLED
    transaction of its user for its payout; none while it is PENDING. *)
Definition accounted (b : BetRow.t) (txs : list TransactionInsert.t) : Prop :=
  (exists balance,
      bet_transactions "BET_PLACED" (BetRow.id b) txs
      = [TransactionInsert.mk (BetRow.user_id b) "BET_PLACED" (- BetRow.stake b) balance
           (Some (BetRow.id b))])
  /\ (if String.eqb (BetRow.status b) "PENDING"
      then bet_transactions "BET_SETTLED" (BetRow.id b) txs = []
      else exists payout balance,
             BetRow.payout b = Some payout
             /\ bet_transactions "BET_SETTLED" (BetRow.id b) txs
                = [TransactionInsert.mk (BetRow.user_id b) "BET_SETTLED" payout balance
                     (Some (BetRow.id b))]).

(** Every reference of a table resolves: the games are numbered by their
    place, and a bet names a stored user and a stored game. *)
Definition refs_ok (s : Store.t) : Prop :=
  (forall i g, nth_error (Store.games s) i = Some g -> GameRow.id g = i)
  /\ (forall b, In b (Store.bets s) ->
        (BetRow.user_id b < List.length (Store.users s))%nat
        /\ (BetRow.game_id b < List.length (Store.games s))%nat).

(** The row at the place an id names, with this id. *)
Definition resolves {A : Type} (key : A -> row_id) (rows : list A) (i : row_id) : Prop :=
  exists row, nth_error rows i = Some row /\ key row = i.

(** A bet as the handlers leave it: a stake above 0; while it is PENDING no
    settlement field is set; once it is settled they hold the values of the
    settlement table for the result declared, at the bet's own stake and
    odds. *)
Definition well_settled (b : BetRow.t) : Prop :=
  (0 <? BetRow.stake b)%float = true
  /\ if String.eqb (BetRow.status b) "PENDING"
     then BetRow.settled_at b = None /\ BetRow.payout b = None /\ BetRow.profit b = None
          /\ BetRow.fair_profit b = None /\ BetRow.fair_payout b = None
     else exists result now,
            BetRow.status b = status_of result
            /\ BetRow.settled_at b = Some now
            /\ BetRow.payout b
               = Some (table_payout result (BetRow.stake b) (BetRow.odds_american b))
            /\ BetRow.profit b
               = Some (table_profit result (BetRow.stake b) (BetRow.odds_american b))
            /\ BetRow.fair_profit b = Some (table_fairProfit result (BetRow.stake b))
            /\ BetRow.fair_payout b = Some (table_fairPayout result (BetRow.stake b)).

(** What a game [fetchNflSpreadsDraftKings] returns has of the game of the
    API's answer it is made from: its id, its teams and its start; a quote
    on a side is in the name of the team of that side; and there is no quote
    when DraftKings is not among the bookmakers. *)
Definition quoted_from (game : OddsGame.t) (q : QuotedGame.t) : Prop :=
  let quoted := QuotedGame.game q in
  NflSpreadGame.id quoted = OddsGame.id game
  /\ NflSpreadGame.homeTeam quoted = OddsGame.home_team game
  /\ NflSpreadGame.awayTeam quoted = OddsGame.away_team game
  /\ NflSpreadGame.commenceTime quoted = OddsGame.commence_time game
  /\ (forall spread, NflSpreadGame.homeSpread quoted = Some spread ->
                     SpreadSide.teamName spread = OddsGame.home_team game)
  /\ (forall spread, NflSpreadGame.awaySpread quoted = Some spread ->
                     SpreadSide.teamName spread = OddsGame.away_team game)
  /\ (forallb (fun b => negb (String.eqb (Bookmaker.key b) "draftkings"))
        (or_empty (OddsGame.bookmakers game)) = true ->
      NflSpreadGame.homeSpread quoted = None /\ NflSpreadGame.awaySpread quoted = None).



Local Close Scope string_scope.

(** * Facts on binary64 arithmetic, read off its specification *)

Definition SFpos (x : spec_float) : Prop :=
  match x with
  | S754_zero false | S754_infinity false | S754_finite false _ _ => True
  | _ => False
  end.

Definition SFnonneg (x : spec_float) : Prop :=
  match x with
  | S754_zero _ | S754_infinity false | S754_finite false _ _ => True
  | _ => False
  end.

Lemma SFpos_nonneg x : SFpos x -> SFnonneg x.
Proof. destruct x as [[|]|[|]| |[|] m e]; simpl; tauto. Qed.

Lemma SFsub_add_opp x y :
  SFsub prec emax x y = SFadd prec emax x (SFopp y).
Proof.
  destruct x as [sx|sx| |sx mx ex], y as [sy|sy| |sy my ey]; simpl;
    try reflexivity; destruct sx, sy; reflexivity.
Qed.

Lemma sub_add_opp (x y : float) : x - y = x + - y.
Proof.
  apply Prim2SF_inj.
  rewrite sub_spec, add_spec, opp_spec. apply SFsub_add_opp.
Qed.

Lemma SFcompare_antisym x y :
  SFcompare y x = option_map CompOpp (SFcompare x y).
Proof.
  destruct x as [sx|sx| |sx mx ex], y as [sy|sy| |sy my ey]; simpl;
    try reflexivity; try (destruct sx; reflexivity); try (destruct sy; reflexivity);
    try (destruct sx, sy; reflexivity).
  f_equal. destruct sx, sy; try reflexivity.
  - rewrite (Z.compare_antisym ex ey).
    destruct (ex ?= ey)%Z; simpl; try reflexivity.
    f_equal. symmetry. exact (Pos.compare_cont_antisym mx my Eq).
  - rewrite (Z.compare_antisym ex ey).
    destruct (ex ?= ey)%Z; simpl; try reflexivity.
    symmetry. exact (Pos.compare_cont_antisym mx my Eq).
Qed.

Lemma SFcompare_refl x : x <> S754_nan -> SFcompare x x = Some Eq.
Proof.
  destruct x as [s|s| |s m e]; simpl; intros H; try reflexivity;
    try (destruct s; reflexivity); try congruence.
  f_equal. rewrite Z.compare_refl.
  pose proof (Pos.compare_cont_refl m Eq) as R.
  destruct s; [change (CompOpp (Pos.compare_cont Eq m m) = Eq)|exact R].
  now rewrite R.
Qed.

Lemma is_nan_spec (x : float) :
  is_nan x = match Prim2SF x with S754_nan => true | _ => false end.
Proof.
  unfold is_nan. rewrite eqb_spec. unfold SFeqb.
  destruct (Prim2SF x) eqn:E; try (rewrite SFcompare_refl by discriminate; reflexivity).
  reflexivity.
Qed.

Lemma Prim2SF_zero : Prim2SF 0 = S754_zero false.
Proof. reflexivity. Qed.

Lemma Prim2SF_infinity : Prim2SF infinity = S754_infinity false.
Proof. reflexivity. Qed.

Lemma is_finite_spec (x : float) :
  is_finite x = match Prim2SF x with
                | S754_zero _ | S754_finite _ _ _ => true
                | _ => false
                end.
Proof.
  unfold is_finite, is_infinity. rewrite is_nan_spec, eqb_spec, abs_spec, Prim2SF_infinity.
  destruct (Prim2SF x) as [s|s| |s m e]; try reflexivity.
Qed.

Lemma leb_zero_spec (x : float) :
  (0 <=? x) = match Prim2SF x with
              | S754_zero _ | S754_infinity false | S754_finite false _ _ => true
              | _ => false
              end.
Proof.
  rewrite leb_spec, Prim2SF_zero. unfold SFleb.
  destruct (Prim2SF x) as [s|[|]| |[|] m e]; reflexivity.
Qed.

Lemma ltb_zero_spec (x : float) :
  (0 <? x) = match Prim2SF x with
             | S754_infinity false | S754_finite false _ _ => true
             | _ => false
             end.
Proof.
  rewrite ltb_spec, Prim2SF_zero. unfold SFltb.
  destruct (Prim2SF x) as [s|[|]| |[|] m e]; reflexivity.
Qed.

Lemma leb_x_zero_spec (x : float) :
  (x <=? 0) = match Prim2SF x with
              | S754_zero _ | S754_infinity true | S754_finite true _ _ => true
              | _ => false
              end.
Proof.
  rewrite leb_spec, Prim2SF_zero. unfold SFleb.
  destruct (Prim2SF x) as [s|[|]| |[|] m e]; reflexivity.
Qed.

Lemma ltb_x_zero_spec (x : float) :
  (x <? 0) = match Prim2SF x with
              | S754_infinity true | S754_finite true _ _ => true
              | _ => false
              end.
Proof.
  rewrite ltb_spec, Prim2SF_zero. unfold SFltb.
  destruct (Prim2SF x) as [s|[|]| |[|] m e]; reflexivity.
Qed.

Lemma nonneg_spec (x : float) : (0 <=? x) = true <-> SFnonneg (Prim2SF x).
Proof.
  rewrite leb_zero_spec.
  destruct (Prim2SF x) as [s|[|]| |[|] m e]; simpl; intuition discriminate.
Qed.

(** ** Rounding keeps the sign *)

Section Rounding.
Variables prec emax : Z.

Lemma shr_1_nonneg mrs : (0 <= shr_m mrs)%Z -> (0 <= shr_m (shr_1 mrs))%Z.
Proof.
  destruct mrs as [m r s]; simpl.
  destruct m as [|[p|p|]|p]; simpl; lia.
Qed.

Lemma iter_shr_1_nonneg p : forall mrs,
  (0 <= shr_m mrs)%Z -> (0 <= shr_m (iter_pos shr_1 p mrs))%Z.
Proof.
  induction p as [p IH|p IH|]; intros mrs H; simpl.
  - apply IH, IH, shr_1_nonneg, H.
  - apply IH, IH, H.
  - apply shr_1_nonneg, H.
Qed.

Lemma shr_nonneg mrs e n :
  (0 <= shr_m mrs)%Z -> (0 <= shr_m (fst (shr mrs e n)))%Z.
Proof.
  intros H. destruct n; simpl; auto using iter_shr_1_nonneg.
Qed.

Lemma shr_fexp_nonneg m e l :
  (0 <= m)%Z -> (0 <= shr_m (fst (shr_fexp prec emax m e l)))%Z.
Proof.
  intros H. unfold shr_fexp. apply shr_nonneg.
  destruct l as [|[ | | ]]; exact H.
Qed.

Lemma round_nearest_even_nonneg m l :
  (0 <= m)%Z -> (0 <= round_nearest_even m l)%Z.
Proof.
  intros H. destruct l as [|[ | | ]]; simpl; try lia.
  destruct (Z.even m); lia.
Qed.

Lemma binary_round_aux_pos m e l :
  (0 <= m)%Z -> SFpos (binary_round_aux prec emax false m e l).
Proof.
  intros H. unfold binary_round_aux.
  pose proof (shr_fexp_nonneg m e l H) as H1.
  destruct (shr_fexp prec emax m e l) as [mrs' e']. simpl in H1.
  pose proof (shr_fexp_nonneg _ e' loc_Exact
                (round_nearest_even_nonneg _ (loc_of_shr_record mrs') H1)) as H2.
  destruct (shr_fexp prec emax _ e' loc_Exact) as [mrs'' e'']. simpl in H2.
  destruct (shr_m mrs'') as [|p|p]; simpl; try exact I; try lia.
  destruct (e'' <=? emax - prec)%Z; exact I.
Qed.

Lemma binary_round_pos m e : SFpos (binary_round prec emax false m e).
Proof.
  unfold binary_round.
  destruct (shl_align m e _) as [mz ez].
  apply binary_round_aux_pos. lia.
Qed.

Lemma binary_normalize_pos z e : (0 <= z)%Z -> SFpos (binary_normalize prec emax z e false).
Proof.
  intros H. destruct z as [|p|p]; simpl; try exact I; try lia.
  apply binary_round_pos.
Qed.

Lemma SFmul_pos m e y :
  SFnonneg y -> SFnonneg (SFmul prec emax (S754_finite false m e) y).
Proof.
  destruct y as [s'|[|]| |[|] m' e']; simpl; try tauto.
  intros _. apply SFpos_nonneg, binary_round_aux_pos. lia.
Qed.

Lemma SFdiv_core_nonneg m1 e1 m2 e2 :
  (0 <= fst (fst (SFdiv_core_binary prec emax (Zpos m1) e1 (Zpos m2) e2)))%Z.
Proof.
  unfold SFdiv_core_binary.
  set (s := (e1 - e2 - _)%Z).
  set (m' := match s with Zpos _ => Z.shiftl (Zpos m1) s | Z0 => Zpos m1 | Zneg _ => 0%Z end).
  assert (Hm : (0 <= m')%Z).
  { unfold m'. destruct s; try lia. apply Z.shiftl_nonneg. lia. }
  pose proof (Z.div_pos m' (Zpos m2) Hm ltac:(lia)) as Hq.
  unfold Z.div in Hq.
  destruct (Z.div_eucl m' (Zpos m2)) as [q r]. exact Hq.
Qed.

Lemma SFdiv_finite_pos m1 e1 m2 e2 :
  SFpos (SFdiv prec emax (S754_finite false m1 e1) (S754_finite false m2 e2)).
Proof.
  simpl.
  pose proof (SFdiv_core_nonneg m1 e1 m2 e2) as H.
  destruct (SFdiv_core_binary prec emax (Zpos m1) e1 (Zpos m2) e2) as [[mz ez] lz].
  apply binary_round_aux_pos. exact H.
Qed.

Lemma SFdiv_pos x m e :
  SFpos x -> SFpos (SFdiv prec emax x (S754_finite false m e)).
Proof.
  destruct x as [[|]|[|]| |[|] m' e']; try (simpl; tauto).
  intros _. apply SFdiv_finite_pos.
Qed.

Lemma SFdiv_by_pos m e y :
  SFpos y -> SFpos (SFdiv prec emax (S754_finite false m e) y).
Proof.
  destruct y as [[|]|[|]| |[|] m' e']; try (simpl; tauto).
  intros _. apply SFdiv_finite_pos.
Qed.


Lemma SFldexp_pos x e : SFpos x -> SFpos (SFldexp prec emax x e).
Proof.
  destruct x as [[|]|[|]| |[|] m' e']; simpl; try tauto.
  intros _. apply binary_round_pos.
Qed.

End Rounding.

Lemma SFabs_pos x : x <> S754_nan -> SFpos (SFabs x).
Proof. destruct x as [[|]|[|]| |[|] m e]; simpl; congruence || tauto. Qed.

Lemma SF2Prim_pos x : SFpos x -> SFpos (Prim2SF (SF2Prim x)).
Proof.
  destruct x as [[|]|[|]| |[|] m e]; try (simpl; tauto); intros _.
  unfold SF2Prim.
  rewrite Z_ldexp_spec. apply SFldexp_pos.
  rewrite of_uint63_spec. apply binary_normalize_pos.
  apply Uint63.to_Z_bounded.
Qed.

(** ** Subtracting a smaller number from a larger one *)





(** ** Doubling is exact *)

Lemma iter_shr_1_exact p : forall m,
  iter_pos shr_1 p (Build_shr_record (Zpos (Pos.iter xO m p)) false false)
  = Build_shr_record (Zpos m) false false.
Proof.
  induction p as [p IH|p IH|]; intros m; simpl.
  - now rewrite !IH.
  - now rewrite !IH.
  - reflexivity.
Qed.

Lemma digits2_pos_iter_xO p m :
  Zpos (digits2_pos (Pos.iter xO m p)) = (Zpos (digits2_pos m) + Zpos p)%Z.
Proof.
  revert m. induction p as [|p IH] using Pos.peano_ind; intros m.
  - simpl. lia.
  - rewrite Pos.iter_succ. simpl digits2_pos. rewrite Pos2Z.inj_succ, IH. lia.
Qed.

Ltac rewrite_fexp e C :=
  match goal with
  | |- context [fexp prec emax ?x] => replace (fexp prec emax x) with e by (symmetry; exact C)
  end.

(** Rounding a mantissa that is already canonical leaves it alone ... *)
Lemma binary_round_aux_canonical s m e :
  fexp prec emax (Zpos (digits2_pos m) + e) = e ->
  binary_round_aux prec emax s (Zpos m) e loc_Exact
  = if (e <=? emax - prec)%Z then S754_finite s m e else S754_infinity s.
Proof.
  intros C. unfold binary_round_aux, shr_fexp. simpl Zdigits2.
  rewrite_fexp e C. rewrite Z.sub_diag. simpl.
  rewrite_fexp e C. rewrite Z.sub_diag. reflexivity.
Qed.

(** ... and so does rounding it with [k] more zero bits at its end. *)
Lemma binary_round_aux_shifted s m e k :
  fexp prec emax (Zpos (digits2_pos m) + e) = e ->
  binary_round_aux prec emax s (Zpos (Pos.iter xO m k)) (e - Zpos k) loc_Exact
  = if (e <=? emax - prec)%Z then S754_finite s m e else S754_infinity s.
Proof.
  intros C. unfold binary_round_aux, shr_fexp. simpl Zdigits2.
  assert (C' : fexp prec emax (Zpos (digits2_pos (Pos.iter xO m k)) + (e - Zpos k)) = e).
  { rewrite digits2_pos_iter_xO. rewrite <- C at 2. f_equal. lia. }
  rewrite_fexp e C'.
  replace (e - (e - Zpos k))%Z with (Zpos k) by lia.
  simpl shr. rewrite iter_shr_1_exact. simpl.
  replace (e - Zpos k + Zpos k)%Z with e by lia.
  rewrite_fexp e C. rewrite Z.sub_diag. reflexivity.
Qed.

Lemma shl_align_noop m e e' : (e <= e')%Z -> shl_align m e e' = (m, e).
Proof.
  intros H. unfold shl_align. destruct (e' - e)%Z eqn:E; try reflexivity. lia.
Qed.

Lemma binary_round_canonical s m e :
  fexp prec emax (Zpos (digits2_pos m) + e) = e ->
  binary_round prec emax s m e
  = if (e <=? emax - prec)%Z then S754_finite s m e else S754_infinity s.
Proof.
  intros C. unfold binary_round. rewrite_fexp e C.
  rewrite (shl_align_noop m e e) by lia.
  exact (binary_round_aux_canonical s m e C).
Qed.

(** Twice a normal number has the same mantissa and the next exponent; twice
    a subnormal number has twice the mantissa and the same exponent. *)
Lemma SFmul_two_finite s m e :
  valid_binary (S754_finite s m e) = true ->
  SFmul prec emax (S754_finite false 4503599627370496 (-51)) (S754_finite s m e)
  = SFadd prec emax (S754_finite s m e) (S754_finite s m e).
Proof.
  intros V.
  unfold SpecFloat.valid_binary, bounded, canonical_mantissa in V.
  apply andb_prop in V. destruct V as [Vc _]. apply Z.eqb_eq in Vc.
  assert (Esum : SFadd prec emax (S754_finite s m e) (S754_finite s m e)
                 = binary_round prec emax s (m~0) e).
  { unfold SFadd. rewrite Z.min_id. unfold shl_align. rewrite Z.sub_diag. simpl fst.
    destruct s; simpl; now rewrite Pos.add_diag. }
  rewrite Esum. clear Esum.
  assert (Hd : (0 < Zpos (digits2_pos m))%Z) by lia.
  assert (D2 : Zpos (digits2_pos m~0) = (Zpos (digits2_pos m) + 1)%Z)
    by (simpl digits2_pos; lia).
  destruct (Z.eq_dec (Zpos (digits2_pos m)) 53) as [E53|N53].
  - (* a normal number *)
    assert (C : fexp prec emax (Zpos (digits2_pos m) + (e + 1)) = (e + 1)%Z).
    { revert Vc. unfold fexp, SpecFloat.emin, prec, emax. lia. }
    assert (C2 : fexp prec emax (Zpos (digits2_pos m~0) + e) = (e + 1)%Z).
    { replace (Zpos (digits2_pos m~0) + e)%Z
        with (Zpos (digits2_pos m) + (e + 1))%Z by lia. exact C. }
    transitivity (if (e + 1 <=? emax - prec)%Z
                  then S754_finite s m (e + 1) else S754_infinity s).
    + assert (H := binary_round_aux_shifted s m (e + 1) 52 C).
      replace (e + 1 - 52)%Z with (-51 + e)%Z in H by lia. exact H.
    + symmetry. unfold binary_round. rewrite_fexp (e + 1)%Z C2.
      rewrite (shl_align_noop (m~0) e (e + 1)) by lia.
      assert (H := binary_round_aux_shifted s m (e + 1) 1 C).
      replace (e + 1 - 1)%Z with e in H by lia. exact H.
  - (* a subnormal number *)
    assert (C : fexp prec emax (Zpos (digits2_pos m~0) + e) = e).
    { rewrite D2. revert Vc. unfold fexp, SpecFloat.emin, prec, emax. lia. }
    transitivity (if (e <=? emax - prec)%Z
                  then S754_finite s (m~0) e else S754_infinity s).
    + assert (H := binary_round_aux_shifted s (m~0) e 51 C).
      replace (e - 51)%Z with (-51 + e)%Z in H by lia. exact H.
    + symmetry. exact (binary_round_canonical s (m~0) e C).
Qed.

Lemma Prim2SF_two : Prim2SF 2 = S754_finite false 4503599627370496 (-51).
Proof. reflexivity. Qed.

Lemma double_is_sum (x : float) : 2 * x = x + x.
Proof.
  apply Prim2SF_inj. rewrite mul_spec, add_spec, Prim2SF_two.
  pose proof (Prim2SF_valid x) as V.
  destruct (Prim2SF x) as [[|]|[|]| |s m e]; try reflexivity.
  now apply SFmul_two_finite.
Qed.

(** ** The same facts on numbers *)

Lemma positive_finite_inv (x : number) :
  is_finite x = true -> (0 <? x) = true ->
  exists m e, Prim2SF x = S754_finite false m e.
Proof.
  rewrite is_finite_spec, ltb_zero_spec.
  destruct (Prim2SF x) as [s|[|]| |[|] m e]; try discriminate.
  intros _ _. now exists m, e.
Qed.



Lemma calculateProfit_nonneg (stake odds : number) :
  is_finite stake = true -> (0 <? stake) = true -> isNaN odds = false ->
  (0 <=? calculateProfit stake odds) = true.
Proof.
  intros Fs Ps No. destruct (positive_finite_inv stake Fs Ps) as (m & e & Es).
  unfold isNaN in No. rewrite is_nan_spec in No.
  unfold calculateProfit, Math.abs.
  destruct (0 <? odds) eqn:Po; rewrite nonneg_spec, mul_spec, Es; apply SFmul_pos;
    rewrite div_spec; apply SFpos_nonneg.
  - rewrite ltb_zero_spec in Po.
    change (Prim2SF 100) with (S754_finite false 7036874417766400 (-46)).
    apply SFdiv_pos.
    destruct (Prim2SF odds) as [s|[|]| |[|] mo eo]; try discriminate; exact I.
  - change (Prim2SF 100) with (S754_finite false 7036874417766400 (-46)).
    apply SFdiv_by_pos. rewrite abs_spec. apply SFabs_pos.
    destruct (Prim2SF odds); congruence.
Qed.

Lemma Number_toFixed2_nonneg (x : number) :
  (0 <=? x) = true -> (0 <=? Number (toFixed2 x)) = true.
Proof.
  intros H. pose proof H as H'. rewrite nonneg_spec in H'.
  unfold toFixed2.
  destruct (Prim2SF x) as [s|[|]| |[|] m e] eqn:E; try (exfalso; exact H'); try reflexivity.
  assert (P : forall n, (0 <=? Number (DFixed false n)) = true).
  { intros [|p|p]; try reflexivity.
    unfold Number. rewrite nonneg_spec. apply SFpos_nonneg, SF2Prim_pos, SFdiv_finite_pos. }
  destruct (0 <=? e)%Z.
  - destruct (ten21 <=? _)%Z; [exact H|apply P].
  - apply P.
Qed.


Lemma mul_infinity (x : number) : (0 <? x) = true -> x * infinity = infinity.
Proof.
  intros H. apply Prim2SF_inj. rewrite mul_spec, Prim2SF_infinity.
  rewrite ltb_zero_spec in H.
  destruct (Prim2SF x) as [s|[|]| |[|] m e]; try discriminate; reflexivity.
Qed.


Lemma ltb_asym (x y : number) : (x <? y) = true -> (y <? x) = false.
Proof.
  rewrite !ltb_spec. unfold SFltb. rewrite (SFcompare_antisym (Prim2SF x) (Prim2SF y)).
  destruct (SFcompare (Prim2SF x) (Prim2SF y)) as [[ | | ]|]; simpl; congruence.
Qed.




(** ** The built-ins on a few numbers *)

Example floor_and_mod1 :
  Math.floor 3.5 = 3 /\ Math.floor 0.5 = 0 /\ Math.floor 3 = 3 /\ Math.floor (-0.5) = -1
  /\ mod1 3.5 = 0.5 /\ mod1 3 = 0 /\ mod1 0.1 = 0.1 /\ mod1 (-2.75) = -0.75.
Proof. repeat split. Qed.

Example hasHook_samples :
  hasHook 3.5 = true /\ hasHook 0.5 = true /\ hasHook 3 = false /\ hasHook 14 = false.
Proof. repeat split. Qed.

(** [(1.005).toFixed(2)] is ["1.00"], since the binary64 value of 1.005 is
    below 1.005; [(8.345).toFixed(2)] is ["8.35"]; [(0.005).toFixed(2)] is
    ["0.01"]; [(-0.001).toFixed(2)] is ["-0.00"]; [(1e21).toFixed(2)] is
    ["1e+21"]. *)
Example toFixed2_samples :
  toFixed2 1.005 = DFixed false 100
  /\ toFixed2 8.345 = DFixed false 835
  /\ toFixed2 0.005 = DFixed false 1
  /\ toFixed2 (-0.001) = DFixed true 0
  /\ toFixed2 1e21 = DShortest 1e21
  /\ toFixed2 90.909090909090907 = DFixed false 9091.
Proof. repeat split. Qed.

Example Number_samples :
  Number (DFixed false 9091) = 90.91
  /\ Number (DFixed false 10) = 0.1
  /\ Number (DFixed true 250) = -2.5
  /\ Number (DFixed false 0) = 0
  /\ Number (DInfinity false) = infinity.
Proof. repeat split. Qed.

(** ** The profit calculator *)

Lemma calculateProfit_positive_odds (stake odds : number) :
  (0 <? odds) = true -> calculateProfit stake odds = stake * (odds / 100).
Proof. intros H. unfold calculateProfit. now rewrite H. Qed.

Lemma calculateProfit_negative_odds (stake odds : number) :
  (odds <? 0) = true -> calculateProfit stake odds = stake * (100 / Math.abs odds).
Proof. intros H. unfold calculateProfit. now rewrite (ltb_asym _ _ H). Qed.




(** C9.  [calculateProfit] makes no test for odds of zero: for every stake,
    odds of 0 (and of -0) take the branch of the negative odds and give
    [stake * (100 / |0|)], a division by zero whose quotient is [Infinity];
    for a stake greater than 0 the profit returned is [Infinity]. *)
Theorem calculateProfit_zero_odds (stake : number) :
  calculateProfit stake 0 = stake * (100 / Math.abs 0)
  /\ calculateProfit stake (-0) = stake * (100 / Math.abs (-0))
  /\ 100 / Math.abs 0 = infinity
  /\ 100 / Math.abs (-0) = infinity
  /\ ((0 <? stake) = true -> calculateProfit stake 0 = infinity).
Proof.
  repeat split; try reflexivity.
  intros H. change (calculateProfit stake 0) with (stake * infinity).
  now apply mul_infinity.
Qed.

(** A stake of 100 at odds of 0. *)
Lemma calculateProfit_zero_odds_example :
  (0 <? 100) = true /\ calculateProfit 100 0 = infinity.
Proof.
  split; [reflexivity|].
  exact (proj2 (proj2 (proj2 (proj2 (calculateProfit_zero_odds 100)))) eq_refl).
Defined.

(** ** The store *)

Lemma find_map_update {A : Type} (key : A -> row_id) (f : A -> A) (i : row_id) (l : list A) (x : A) :
  (forall y, key (f y) = key y) ->
  find (fun y => Nat.eqb (key y) i) l = Some x ->
  find (fun y => Nat.eqb (key y) i)
       (map (fun y => if Nat.eqb (key y) i then f y else y) l) = Some (f x).
Proof.
  intros Hk. induction l as [|y l IH]; simpl; [discriminate|].
  destruct (Nat.eqb (key y) i) eqn:E.
  - intros [= ->]. simpl. now rewrite Hk, E.
  - intros H. simpl. rewrite E. now apply IH.
Qed.

(** ** Settlement *)

(** What [handleSettleBet] does with a PENDING bet, in the terms of the
    settlement table; the fair payout [stake + stake] it computes for WON is
    the table's [2 * stake]. *)
Lemma handleSettleBet_pending now bet result a currentUser :
  App.currentUser a = Some currentUser ->
  BetRow.status bet = "PENDING"%string ->
  handleSettleBet now bet result a =
    let payout := table_payout result (BetRow.stake bet) (BetRow.odds_american bet) in
    let profit := table_profit result (BetRow.stake bet) (BetRow.odds_american bet) in
    let fairProfit := table_fairProfit result (BetRow.stake bet) in
    let fairPayout := table_fairPayout result (BetRow.stake bet) in
    match update_bet (BetRow.id bet)
            (settle_fields (status_of result) payout profit fairProfit fairPayout now)
            (App.db a) with
    | None => App.setBetError "Failed to update bet" a
    | Some (_, db1) =>
        let newBalance := UserRow.current_balance currentUser + payout in
        let db2 :=
          insert_transaction
            (TransactionInsert.mk (UserRow.id currentUser) "BET_SETTLED" payout newBalance
               (Some (BetRow.id bet))) db1 in
        match update_user_balance (UserRow.id currentUser) newBalance db2 with
        | None =>
            App.mk db2 (App.currentUser a) (App.error a) (App.selectedBet a)
              (App.stakeInput a) "Failed to update user balance" (App.myBets a)
        | Some (updatedUser, db3) =>
            fetchMyBets (UserRow.id currentUser)
              (App.mk db3 (Some updatedUser) (App.error a) (App.selectedBet a)
                 (App.stakeInput a) "" (App.myBets a))
        end
    end.
Proof.
  intros Hu Hs. unfold handleSettleBet. rewrite Hu, Hs. simpl negb. cbv iota.
  destruct result; try reflexivity.
  unfold table_fairPayout. now rewrite double_is_sum.
Qed.

(** The bets and the transactions of the store once a stored PENDING bet has
    been settled. *)
Lemma handleSettleBet_persists now bet result a currentUser stored :
  App.currentUser a = Some currentUser ->
  BetRow.status bet = "PENDING"%string ->
  find (fun b => Nat.eqb (BetRow.id b) (BetRow.id bet)) (Store.bets (App.db a)) = Some stored ->
  let payout := table_payout result (BetRow.stake bet) (BetRow.odds_american bet) in
  let a' := handleSettleBet now bet result a in
  find (fun b => Nat.eqb (BetRow.id b) (BetRow.id bet)) (Store.bets (App.db a'))
  = Some (settle_fields (status_of result) payout
            (table_profit result (BetRow.stake bet) (BetRow.odds_american bet))
            (table_fairProfit result (BetRow.stake bet))
            (table_fairPayout result (BetRow.stake bet)) now stored)
  /\ Store.transactions (App.db a')
     = Store.transactions (App.db a)
       ++ [TransactionInsert.mk (UserRow.id currentUser) "BET_SETTLED" payout
             (UserRow.current_balance currentUser + payout) (Some (BetRow.id bet))].
Proof.
  intros Hu Hs Hf payout a'. unfold a'.
  rewrite (handleSettleBet_pending now bet result a currentUser Hu Hs). cbv zeta.
  fold payout. unfold update_bet. rewrite Hf.
  set (f := settle_fields _ _ _ _ _ _).
  assert (Hfind : find (fun b => Nat.eqb (BetRow.id b) (BetRow.id bet))
            (map (fun b => if Nat.eqb (BetRow.id b) (BetRow.id bet) then f b else b)
               (Store.bets (App.db a))) = Some (f stored)).
  { apply (find_map_update BetRow.id f); [reflexivity|exact Hf]. }
  unfold update_user_balance.
  destruct (find _ (Store.users _)); simpl; split; first [exact Hfind|reflexivity].
Qed.

(** C2.  Settling a stored PENDING bet of stake [s] and odds [o] with the
    declared result [R] persists the values of the settlement table (for WON
    the profit is [calculateProfit s o] rounded to two decimals) and emits
    one BET_SETTLED transaction whose amount is the payout and whose
    [balance_after] is the current balance plus the payout. *)
Theorem settlement_outputs now bet result a currentUser stored :
  App.currentUser a = Some currentUser ->
  BetRow.status bet = "PENDING"%string ->
  find (fun b => Nat.eqb (BetRow.id b) (BetRow.id bet)) (Store.bets (App.db a)) = Some stored ->
  let s := BetRow.stake bet in
  let o := BetRow.odds_american bet in
  let a' := handleSettleBet now bet result a in
  (exists settled,
      find (fun b => Nat.eqb (BetRow.id b) (BetRow.id bet)) (Store.bets (App.db a'))
      = Some settled
      /\ BetRow.status settled = status_of result
      /\ BetRow.profit settled = Some (table_profit result s o)
      /\ BetRow.payout settled = Some (table_payout result s o)
      /\ BetRow.fair_profit settled = Some (table_fairProfit result s)
      /\ BetRow.fair_payout settled = Some (table_fairPayout result s))
  /\ Store.transactions (App.db a')
     = Store.transactions (App.db a)
       ++ [TransactionInsert.mk (UserRow.id currentUser) "BET_SETTLED"
             (table_payout result s o)
             (UserRow.current_balance currentUser + table_payout result s o)
             (Some (BetRow.id bet))].
Proof.
  intros Hu Hs Hf s o a'.
  destruct (handleSettleBet_persists now bet result a currentUser stored Hu Hs Hf)
    as [Hb Ht].
  split; [|exact Ht].
  eexists. split; [exact Hb|]. repeat split.
Qed.

(** The sample bet, staked 100 at -110 by a user left with 900, settled as
    WON. *)
Lemma settlement_outputs_example :
  App.currentUser sample_state = Some sample_user
  /\ BetRow.status sample_bet = "PENDING"%string
  /\ (exists settled,
        find (fun b => Nat.eqb (BetRow.id b) 0) (Store.bets (App.db sample_settled))
        = Some settled
        /\ BetRow.profit settled = Some 90.91
        /\ BetRow.payout settled = Some 190.91)
  /\ Store.transactions (App.db sample_settled)
     = Store.transactions (App.db sample_state)
       ++ [TransactionInsert.mk 0%nat "BET_SETTLED" 190.91 (900 + 190.91) (Some 0%nat)].
Proof.
  pose proof (settlement_outputs "t2" sample_bet WON sample_state sample_user
                (BetRow.with_game None sample_bet) eq_refl eq_refl eq_refl) as H.
  cbv zeta in H. destruct H as [[settled (Hf & _ & Hp & Hq & _)] Ht].
  split; [reflexivity|split; [reflexivity|split]].
  - exists settled. split; [exact Hf|split; [exact Hp|exact Hq]].
  - exact Ht.
Defined.



Lemma table_won_100_at_minus_110 :
  table_profit WON 100 (-110) = 90.91
  /\ table_payout WON 100 (-110) = 190.91
  /\ table_fairProfit WON 100 = 100
  /\ table_fairPayout WON 100 = 200.
Proof. repeat split; vm_compute; reflexivity. Qed.

(** C8.  Settling as WON a stored PENDING bet with a stake of 100 at odds of
    -110 persists a profit of 90.91 (the calculator's 90.909090909090907
    rounded to two decimals), a payout of 190.91, a fair profit of 100 and a
    fair payout of 200. *)
Theorem settle_won_100_at_minus_110 now bet a currentUser stored :
  App.currentUser a = Some currentUser ->
  BetRow.status bet = "PENDING"%string ->
  find (fun b => Nat.eqb (BetRow.id b) (BetRow.id bet)) (Store.bets (App.db a)) = Some stored ->
  BetRow.stake bet = 100 ->
  BetRow.odds_american bet = -110 ->
  calculateProfit 100 (-110) = 90.909090909090907
  /\ exists settled,
      find (fun b => Nat.eqb (BetRow.id b) (BetRow.id bet))
        (Store.bets (App.db (handleSettleBet now bet WON a))) = Some settled
      /\ BetRow.status settled = "WON"%string
      /\ BetRow.profit settled = Some 90.91
      /\ BetRow.payout settled = Some 190.91
      /\ BetRow.fair_profit settled = Some 100
      /\ BetRow.fair_payout settled = Some 200.
Proof.
  intros Hu Hs Hf Hst Ho. split; [reflexivity|].
  destruct (handleSettleBet_persists now bet WON a currentUser stored Hu Hs Hf) as [Hb _].
  rewrite Hst, Ho in Hb.
  destruct table_won_100_at_minus_110 as (E1 & E2 & E3 & E4).
  rewrite E1, E2, E3, E4 in Hb.
  eexists. split; [exact Hb|]. repeat split.
Qed.

(** The row of the sample bet after its settlement. *)
Lemma settle_won_100_at_minus_110_example :
  find (fun b => Nat.eqb (BetRow.id b) 0) (Store.bets (App.db sample_settled))
  = Some (BetRow.with_game None sample_won_bet)
  /\ exists settled,
      find (fun b => Nat.eqb (BetRow.id b) 0) (Store.bets (App.db sample_settled))
      = Some settled
      /\ BetRow.profit settled = Some 90.91
      /\ BetRow.payout settled = Some 190.91.
Proof.
  pose proof (settle_won_100_at_minus_110 "t2" sample_bet sample_state sample_user
                (BetRow.with_game None sample_bet) eq_refl eq_refl eq_refl eq_refl eq_refl)
    as [_ [settled (Hf & _ & Hp & Hq & _)]].
  split; [reflexivity|].
  exists settled. split; [exact Hf|split; [exact Hp|exact Hq]].
Defined.

(** ** Placement *)


Section Placement.

Variable parseFloat : string -> number.

(** What [handlePlaceBet] does when one of its two tests rejects the stake. *)
Lemma handlePlaceBet_rejected now a currentUser selectedBet :
  App.currentUser a = Some currentUser ->
  App.selectedBet a = Some selectedBet ->
  stake_accepted (parseFloat (App.stakeInput a)) (UserRow.current_balance currentUser) = false ->
  handlePlaceBet parseFloat now a = App.setBetError "Enter a valid stake." a
  \/ handlePlaceBet parseFloat now a
     = App.setBetError "Stake exceeds your current balance." a.
Proof.
  intros Hu Hb. unfold stake_accepted, handlePlaceBet. rewrite Hu, Hb.
  destruct (isNaN _ || (_ <=? 0))%bool; [now left|].
  destruct (_ <? _); [now right|discriminate].
Qed.

(** What it does when both tests pass. *)
Lemma handlePlaceBet_accepted now a currentUser selectedBet :
  App.currentUser a = Some currentUser ->
  App.selectedBet a = Some selectedBet ->
  stake_accepted (parseFloat (App.stakeInput a)) (UserRow.current_balance currentUser) = true ->
  let parsedStake := parseFloat (App.stakeInput a) in
  let newBalance := UserRow.current_balance currentUser - parsedStake in
  let db1 := snd (ensureGameInDb (SelectedBet.game selectedBet) (App.db a)) in
  let gameRow := fst (ensureGameInDb (SelectedBet.game selectedBet) (App.db a)) in
  let row :=
    BetRow.mk (List.length (Store.bets (App.db a))) (UserRow.id currentUser)
      (GameRow.id gameRow) (SelectedBet.side selectedBet)
      (SpreadSide.teamName (SelectedBet.spread selectedBet))
      (SpreadSide.point (SelectedBet.spread selectedBet))
      (SpreadSide.price (SelectedBet.spread selectedBet))
      parsedStake "PENDING" now None None None None None None in
  let tx :=
    TransactionInsert.mk (UserRow.id currentUser) "BET_PLACED" (- parsedStake) newBalance
      (Some (List.length (Store.bets (App.db a)))) in
  let db3 :=
    insert_transaction tx (Store.with_bets (Store.bets (App.db a) ++ [row]) db1) in
  handlePlaceBet parseFloat now a =
    match update_user_balance (UserRow.id currentUser) newBalance db3 with
    | None =>
        App.mk db3 (App.currentUser a) (App.error a) (App.selectedBet a)
          (App.stakeInput a) "Failed to update user balance" (App.myBets a)
    | Some (updatedUser, db4) =>
        fetchMyBets (UserRow.id currentUser)
          (App.mk db4 (Some updatedUser) (App.error a) None "" "" (App.myBets a))
    end.
Proof.
  intros Hu Hb. unfold stake_accepted, handlePlaceBet. rewrite Hu, Hb.
  destruct (isNaN _ || (_ <=? 0))%bool; [discriminate|].
  destruct (_ <? _); [discriminate|]. intros _. cbv zeta.
  unfold ensureGameInDb.
  destruct (select_game_by_external_id _ _); reflexivity.
Qed.

(** The bets and the transactions of the store after an accepted placement. *)
Lemma handlePlaceBet_accepted_store now a currentUser selectedBet :
  App.currentUser a = Some currentUser ->
  App.selectedBet a = Some selectedBet ->
  stake_accepted (parseFloat (App.stakeInput a)) (UserRow.current_balance currentUser) = true ->
  let parsedStake := parseFloat (App.stakeInput a) in
  let a' := handlePlaceBet parseFloat now a in
  (exists gameId,
      Store.bets (App.db a')
      = Store.bets (App.db a)
        ++ [BetRow.mk (List.length (Store.bets (App.db a))) (UserRow.id currentUser)
              gameId (SelectedBet.side selectedBet)
              (SpreadSide.teamName (SelectedBet.spread selectedBet))
              (SpreadSide.point (SelectedBet.spread selectedBet))
              (SpreadSide.price (SelectedBet.spread selectedBet))
              parsedStake "PENDING" now None None None None None None])
  /\ Store.transactions (App.db a')
     = Store.transactions (App.db a)
       ++ [TransactionInsert.mk (UserRow.id currentUser) "BET_PLACED" (- parsedStake)
             (UserRow.current_balance currentUser - parsedStake)
             (Some (List.length (Store.bets (App.db a))))].
Proof.
  intros Hu Hb Ha parsedStake a'. unfold a'.
  rewrite (handlePlaceBet_accepted now a currentUser selectedBet Hu Hb Ha). cbv zeta.
  fold parsedStake.
  assert (Ht : Store.transactions
                 (snd (ensureGameInDb (SelectedBet.game selectedBet) (App.db a)))
               = Store.transactions (App.db a)).
  { unfold ensureGameInDb. destruct (select_game_by_external_id _ _); reflexivity. }
  unfold update_user_balance.
  destruct (find _ _); simpl; (split; [eexists; reflexivity|now rewrite Ht]).
Qed.


End Placement.

(** ** The ledger *)

Lemma filter_none {A : Type} (f : A -> bool) (l : list A) :
  (forall x, In x l -> f x = false) -> filter f l = [].
Proof.
  induction l as [|x l IH]; intros H; simpl; [reflexivity|].
  rewrite (H x (or_introl eq_refl)). apply IH. intros y Hy. apply H. now right.
Qed.

Lemma ids_unique us txs u v :
  ids_ok us txs -> In u us -> In v us -> UserRow.id u = UserRow.id v -> u = v.
Proof.
  intros [Hid _] Hu Hv E.
  destruct (In_nth_error us u Hu) as [i Hi].
  destruct (In_nth_error us v Hv) as [j Hj].
  pose proof (Hid i u Hi). pose proof (Hid j v Hj).
  assert (i = j) by congruence. subst j. congruence.
Qed.

Lemma find_user_by_id us txs u :
  ids_ok us txs -> In u us ->
  find (fun x => Nat.eqb (UserRow.id x) (UserRow.id u)) us = Some u.
Proof.
  intros Hok Hu.
  destruct (find _ us) as [x|] eqn:E.
  - apply find_some in E. destruct E as [Hx E]. apply Nat.eqb_eq in E.
    f_equal. apply (ids_unique us txs x u Hok Hx Hu E).
  - apply (find_none _ _ E) in Hu. now rewrite Nat.eqb_refl in Hu.
Qed.

Lemma user_id_lt_length us txs u :
  ids_ok us txs -> In u us -> (UserRow.id u < List.length us)%nat.
Proof.
  intros [Hid _] Hu. destruct (In_nth_error us u Hu) as [i Hi].
  rewrite (Hid i u Hi). apply nth_error_Some. congruence.
Qed.

Lemma ledger_balance_app u txs tx :
  ledger_balance u (txs ++ [tx])
  = if is_bet_transaction_of (UserRow.id u) tx
    then ledger_balance u txs + TransactionInsert.amount tx
    else ledger_balance u txs.
Proof.
  unfold ledger_balance. rewrite filter_app. simpl.
  destruct (is_bet_transaction_of (UserRow.id u) tx).
  - now rewrite fold_left_app.
  - now rewrite app_nil_r.
Qed.

(** Recording a bet transaction of a stored user and writing the balance it
    leads to keeps the store consistent. *)
Lemma ledger_commit us txs u tx :
  ids_ok us txs -> ledger_ok us txs -> In u us ->
  TransactionInsert.user_id tx = UserRow.id u ->
  String.eqb (TransactionInsert.type tx) "INITIAL" = false ->
  let b := UserRow.current_balance u + TransactionInsert.amount tx in
  let us' :=
    map (fun x => if Nat.eqb (UserRow.id x) (UserRow.id u)
                  then UserRow.with_current_balance b x else x) us in
  ids_ok us' (txs ++ [tx]) /\ ledger_ok us' (txs ++ [tx])
  /\ In (UserRow.with_current_balance b u) us'.
Proof.
  intros Hok Hl Hu Htu Hty b us'. split; [|split].
  - destruct Hok as [Hid Htx]. split.
    + intros i x Hx. unfold us' in Hx. rewrite nth_error_map in Hx.
      destruct (nth_error us i) as [y|] eqn:Ey; [|discriminate].
      injection Hx as <-. rewrite <- (Hid i y Ey).
      destruct (Nat.eqb (UserRow.id y) (UserRow.id u)); reflexivity.
    + intros t Ht. unfold us'. rewrite length_map.
      apply in_app_or in Ht. destruct Ht as [Ht|[<-|[]]]; [now apply Htx|].
      rewrite Htu. apply (user_id_lt_length us txs u (conj Hid Htx) Hu).
  - intros x' Hx'. unfold us' in Hx'. apply in_map_iff in Hx'.
    destruct Hx' as (x & <- & Hx). rewrite ledger_balance_app.
    destruct (Nat.eqb (UserRow.id x) (UserRow.id u)) eqn:E.
    + apply Nat.eqb_eq in E. pose proof (ids_unique us txs x u Hok Hx Hu E). subst x.
      unfold is_bet_transaction_of. simpl UserRow.id.
      rewrite Htu, Nat.eqb_refl, Hty. simpl.
      change (ledger_balance (UserRow.with_current_balance b u) txs)
        with (ledger_balance u txs).
      now rewrite <- (Hl u Hu).
    + unfold is_bet_transaction_of. rewrite Htu.
      rewrite Nat.eqb_sym in E. rewrite E. simpl. now apply Hl.
  - unfold us'. apply in_map_iff. exists u. now rewrite Nat.eqb_refl.
Qed.

(** Creating a user, with its INITIAL transaction, keeps it consistent too. *)
Lemma ledger_create us txs name b :
  ids_ok us txs -> ledger_ok us txs ->
  let u := UserRow.mk (List.length us) name (Some name) b b in
  let tx := TransactionInsert.mk (UserRow.id u) "INITIAL" b b None in
  ids_ok (us ++ [u]) (txs ++ [tx]) /\ ledger_ok (us ++ [u]) (txs ++ [tx]).
Proof.
  intros [Hid Htx] Hl u tx. split; [split|].
  - intros i x Hx. destruct (Nat.lt_ge_cases i (List.length us)) as [Hi|Hi].
    + rewrite nth_error_app1 in Hx by exact Hi. now apply Hid.
    + rewrite nth_error_app2 in Hx by exact Hi.
      destruct (i - List.length us)%nat as [|k] eqn:Ek.
      * injection Hx as <-. simpl. lia.
      * destruct k; discriminate.
  - intros t Ht. rewrite length_app. simpl.
    apply in_app_or in Ht. destruct Ht as [Ht|[<-|[]]].
    + specialize (Htx t Ht). lia.
    + simpl. lia.
  - intros x Hx. rewrite ledger_balance_app.
    replace (is_bet_transaction_of (UserRow.id x) tx) with false
      by (unfold is_bet_transaction_of; simpl; now rewrite andb_false_r).
    apply in_app_or in Hx. destruct Hx as [Hx|[<-|[]]]; [now apply Hl|].
    unfold ledger_balance.
    replace (filter (is_bet_transaction_of (UserRow.id u)) txs) with (@nil TransactionInsert.t);
      [reflexivity|].
    symmetry. apply filter_none.
    intros t Ht. unfold is_bet_transaction_of. simpl.
    specialize (Htx t Ht).
    destruct (Nat.eqb_spec (TransactionInsert.user_id t) (List.length us)); [lia|reflexivity].
Qed.

Lemma update_user_balance_commit s u tx b :
  ids_ok (Store.users s) (Store.transactions s) ->
  ledger_ok (Store.users s) (Store.transactions s) ->
  In u (Store.users s) ->
  TransactionInsert.user_id tx = UserRow.id u ->
  String.eqb (TransactionInsert.type tx) "INITIAL" = false ->
  b = UserRow.current_balance u + TransactionInsert.amount tx ->
  exists s',
    update_user_balance (UserRow.id u) b (insert_transaction tx s)
    = Some (UserRow.with_current_balance b u, s')
    /\ ids_ok (Store.users s') (Store.transactions s')
    /\ ledger_ok (Store.users s') (Store.transactions s')
    /\ In (UserRow.with_current_balance b u) (Store.users s').
Proof.
  intros Hok Hl Hu Htu Hty ->.
  unfold update_user_balance, insert_transaction. simpl Store.users.
  rewrite (find_user_by_id _ _ u Hok Hu).
  eexists. split; [reflexivity|].
  simpl. apply (ledger_commit _ _ u tx Hok Hl Hu Htu Hty).
Qed.

Lemma ensureGameInDb_ledger game s :
  Store.users (snd (ensureGameInDb game s)) = Store.users s
  /\ Store.transactions (snd (ensureGameInDb game s)) = Store.transactions s.
Proof.
  unfold ensureGameInDb. destruct (select_game_by_external_id _ _); split; reflexivity.
Qed.

Lemma update_bet_ledger i f s r s' :
  update_bet i f s = Some (r, s') ->
  Store.users s' = Store.users s /\ Store.transactions s' = Store.transactions s.
Proof.
  unfold update_bet. destruct (find _ _); [|discriminate].
  intros [= _ <-]. split; reflexivity.
Qed.

Lemma consistent_same a a' :
  App.db a' = App.db a -> App.currentUser a' = App.currentUser a ->
  consistent a -> consistent a'.
Proof. unfold consistent. intros -> ->. exact (fun H => H). Qed.

Lemma openBetSlip_same game side a :
  App.db (openBetSlip game side a) = App.db a
  /\ App.currentUser (openBetSlip game side a) = App.currentUser a.
Proof.
  unfold openBetSlip. destruct (App.currentUser a) eqn:E; [|split; simpl; congruence].
  destruct side;
    [destruct (NflSpreadGame.homeSpread game)|destruct (NflSpreadGame.awaySpread game)];
    split; simpl; congruence.
Qed.

Section Ledger.

Variable parseFloat : string -> number.
Variable initial_balance : number.

Lemma loginWithUsername_consistent rawName a :
  consistent a -> consistent (loginWithUsername initial_balance rawName a).
Proof.
  intros (Hok & Hl & Hu). unfold loginWithUsername.
  destruct (String.eqb (trim rawName) ""); [exact (conj Hok (conj Hl Hu))|].
  destruct (select_user_by_username (trim rawName) (App.db a)) as [user|] eqn:E.
  - split; [exact Hok|split; [exact Hl|]].
    simpl. intros u [= <-]. unfold select_user_by_username in E.
    apply (find_some _ _ E).
  - destruct (ledger_create _ _ (trim rawName) initial_balance Hok Hl) as [Hok' Hl'].
    split; [exact Hok'|split; [exact Hl'|]].
    simpl. intros u [= <-]. apply in_or_app. right. now left.
Qed.

Lemma handlePlaceBet_consistent now a :
  consistent a -> consistent (handlePlaceBet parseFloat now a).
Proof.
  intros Hc. pose proof Hc as (Hok & Hl & Hu).
  destruct (App.currentUser a) as [cu|] eqn:Ecu;
    [|unfold handlePlaceBet; now rewrite Ecu].
  destruct (App.selectedBet a) as [sel|] eqn:Esel;
    [|unfold handlePlaceBet; now rewrite Ecu, Esel].
  destruct (stake_accepted (parseFloat (App.stakeInput a)) (UserRow.current_balance cu))
    eqn:Eacc.
  - rewrite (handlePlaceBet_accepted parseFloat now a cu sel Ecu Esel Eacc). cbv zeta.
    destruct (ensureGameInDb_ledger (SelectedBet.game sel) (App.db a)) as [Eu Et].
    set (tx := TransactionInsert.mk _ _ _ _ _).
    set (s := Store.with_bets _ _).
    assert (Hs : Store.users s = Store.users (App.db a)
                 /\ Store.transactions s = Store.transactions (App.db a))
      by (split; assumption).
    destruct Hs as [Hsu Hst].
    destruct (update_user_balance_commit s cu tx
                (UserRow.current_balance cu - parseFloat (App.stakeInput a)))
      as (s' & E & Hok' & Hl' & Hin').
    + now rewrite Hsu, Hst.
    + now rewrite Hsu, Hst.
    + rewrite Hsu. now apply Hu.
    + reflexivity.
    + reflexivity.
    + apply sub_add_opp.
    + rewrite E. split; [exact Hok'|split; [exact Hl'|]].
      simpl. intros u [= <-]. exact Hin'.
  - destruct (handlePlaceBet_rejected parseFloat now a cu sel Ecu Esel Eacc) as [E|E];
      rewrite E; exact Hc.
Qed.

Lemma handleSettleBet_consistent now bet result a :
  consistent a -> consistent (handleSettleBet now bet result a).
Proof.
  intros Hc. pose proof Hc as (Hok & Hl & Hu).
  destruct (App.currentUser a) as [cu|] eqn:Ecu;
    [|unfold handleSettleBet; rewrite Ecu; exact Hc].
  destruct (String.eqb_spec (BetRow.status bet) "PENDING") as [Es|Es].
  - rewrite (handleSettleBet_pending now bet result a cu Ecu Es). cbv zeta.
    destruct (update_bet _ _ _) as [[r db1]|] eqn:Eb; [|exact Hc].
    destruct (update_bet_ledger _ _ _ _ _ Eb) as [Hsu Hst].
    set (tx := TransactionInsert.mk _ _ _ _ _).
    destruct (update_user_balance_commit db1 cu tx
                (UserRow.current_balance cu
                 + table_payout result (BetRow.stake bet) (BetRow.odds_american bet)))
      as (s' & E & Hok' & Hl' & Hin').
    + now rewrite Hsu, Hst.
    + now rewrite Hsu, Hst.
    + rewrite Hsu. now apply Hu.
    + reflexivity.
    + reflexivity.
    + reflexivity.
    + rewrite E. split; [exact Hok'|split; [exact Hl'|]].
      simpl. intros u [= <-]. exact Hin'.
  - unfold handleSettleBet. rewrite Ecu.
    destruct (String.eqb_spec (BetRow.status bet) "PENDING"); [contradiction|exact Hc].
Qed.

Lemma step_consistent a act :
  consistent a -> consistent (step parseFloat initial_balance a act).
Proof.
  intros Hc. destruct act as [rawName|game side|text|now|now bet result]; simpl.
  - now apply loginWithUsername_consistent.
  - destruct (openBetSlip_same game side a) as [Ed Eu].
    now apply (consistent_same a).
  - exact Hc.
  - now apply handlePlaceBet_consistent.
  - now apply handleSettleBet_consistent.
Qed.

Lemma run_consistent acts : forall a,
  consistent a -> consistent (run parseFloat initial_balance acts a).
Proof.
  induction acts as [|act acts IH]; intros a Hc; simpl; [exact Hc|].
  apply IH, step_consistent, Hc.
Qed.

Lemma initial_consistent : consistent App.initial.
Proof.
  split; [split|split]; simpl.
  - intros [|i] u; discriminate.
  - contradiction.
  - intros u [].
  - discriminate.
Qed.

(** C1, as amended.  In every state the component reaches from its initial
    state by logging in, opening the bet slip, typing a stake, placing and
    settling bets, the current balance of every stored user equals the
    starting balance to which the amounts of the user's BET_PLACED and
    BET_SETTLED transactions have been added in the order they were
    recorded. *)
Theorem ledger_consistency acts u :
  In u (Store.users (App.db (run parseFloat initial_balance acts App.initial))) ->
  UserRow.current_balance u
  = ledger_balance u
      (Store.transactions (App.db (run parseFloat initial_balance acts App.initial))).
Proof.
  intros Hu.
  destruct (run_consistent acts App.initial initial_consistent) as (_ & Hl & _).
  now apply Hl.
Qed.

End Ledger.

(** ** Balances that stay at or above zero *)






Section NonNegative.

Variable parseFloat : string -> number.
Variable initial_balance : number.





End NonNegative.

(** ** Actual and fair profit *)

Lemma sign_of_nonneg (x : number) : (0 <=? x) = true -> sign x = 0%Z \/ sign x = 1%Z.
Proof.
  unfold sign. rewrite leb_zero_spec, ltb_x_zero_spec, ltb_zero_spec.
  destruct (Prim2SF x) as [s|[|]| |[|] m e]; try discriminate; auto.
Qed.

Lemma sign_of_pos (x : number) : (0 <? x) = true -> sign x = 1%Z.
Proof. intros H. unfold sign. now rewrite (ltb_asym _ _ H), H. Qed.

(** C6, as amended.  For a stored PENDING bet with a finite stake [s > 0] and
    odds that are a number, the profit and the fair profit persisted by the
    settlement never have opposite signs: for LOST both are [-s], for PUSH
    both are [0], and for WON the fair profit is exactly [s], whatever the
    odds, while the actual profit is positive or, when it rounds to 0.00,
    zero; the two differ only for WON. *)
Theorem fair_and_actual_profit now bet result a currentUser stored :
  App.currentUser a = Some currentUser ->
  BetRow.status bet = "PENDING"%string ->
  find (fun b => Nat.eqb (BetRow.id b) (BetRow.id bet)) (Store.bets (App.db a)) = Some stored ->
  well_formed_bet bet = true ->
  exists settled actual fair,
    find (fun b => Nat.eqb (BetRow.id b) (BetRow.id bet))
      (Store.bets (App.db (handleSettleBet now bet result a))) = Some settled
    /\ BetRow.profit settled = Some actual
    /\ BetRow.fair_profit settled = Some fair
    /\ match result with
       | WON => fair = BetRow.stake bet /\ sign fair = 1%Z
                /\ (sign actual = 0%Z \/ sign actual = 1%Z)
       | LOST => actual = - BetRow.stake bet /\ fair = - BetRow.stake bet
       | PUSH => actual = 0 /\ fair = 0
       end
    /\ (actual <> fair -> result = WON).
Proof.
  intros Hu Hs Hf Hwf.
  destruct (handleSettleBet_persists now bet result a currentUser stored Hu Hs Hf) as [Hb _].
  unfold well_formed_bet in Hwf.
  apply andb_prop in Hwf. destruct Hwf as [Hwf Hn].
  apply andb_prop in Hwf. destruct Hwf as [Hfin Hpos]. apply negb_true_iff in Hn.
  eexists. eexists. eexists.
  split; [exact Hb|]. split; [reflexivity|]. split; [reflexivity|].
  destruct result; simpl.
  - split; [|reflexivity]. split; [reflexivity|]. split; [now apply sign_of_pos|].
    apply sign_of_nonneg, Number_toFixed2_nonneg. now apply calculateProfit_nonneg.
  - split; [split; reflexivity|]. intros H. now contradiction H.
  - split; [split; reflexivity|]. intros H. now contradiction H.
Qed.

(** C6, as stated, fails: a stake of 0.001 settled as WON at odds of -110
    has a profit of 0.00090909... that is persisted as 0, of sign 0, beside a
    fair profit of 0.001, of sign 1. *)
Lemma tiny_stake_won_profit_is_zero :
  Store.bets (App.db sample_tiny_state) = [BetRow.with_game None sample_tiny_bet]
  /\ (exists settled,
        Store.bets (App.db (handleSettleBet "t2" sample_tiny_bet WON sample_tiny_state))
        = [settled]
        /\ BetRow.status settled = "WON"%string
        /\ BetRow.profit settled = Some 0
        /\ BetRow.fair_profit settled = Some 0.001)
  /\ sign 0 = 0%Z
  /\ sign 0.001 = 1%Z.
Proof.
  split; [reflexivity|split; [|split; reflexivity]].
  eexists. split; [vm_compute; reflexivity|]. repeat split.
Qed.

(** ** The settlement-criteria explainer *)

Section ExplainerFacts.

Variable toString : number -> string.

Local Open Scope string_scope.


End ExplainerFacts.

(** ** Examples *)

(** C1, as stated, fails: a user who has just been created with a starting
    balance of 1000 has one INITIAL transaction of amount 1000 and a current
    balance of 1000, while the starting balance plus the sum of the amounts of
    all the user's transactions is 2000. *)
Lemma initial_transaction_counted_twice :
  Store.users (App.db sample_created) = [sample_new_user]
  /\ Store.transactions (App.db sample_created)
     = [TransactionInsert.mk 0%nat "INITIAL" 1000 1000 None]
  /\ UserRow.current_balance sample_new_user = 1000
  /\ spec_balance sample_new_user (Store.transactions (App.db sample_created)) = 2000
  /\ UserRow.current_balance sample_new_user
     <> spec_balance sample_new_user (Store.transactions (App.db sample_created)).
Proof.
  repeat split.
  intros H. apply (f_equal Prim2SF) in H. vm_compute in H. discriminate H.
Qed.

(** The amounts are added to the starting balance one by one: after stakes
    of 0.1 and 0.2 out of 1000 the current balance is [1000 - 0.1 - 0.2],
    which is not what adding the sum [0 - 0.1 - 0.2] of the two amounts to
    1000 gives. *)
Example running_balance_is_not_a_separate_sum :
  map UserRow.current_balance (Store.users (App.db sample_two_stakes))
  = [999.69999999999993]
  /\ map TransactionInsert.amount (Store.transactions (App.db sample_two_stakes))
     = [1000; -0.1; -0.2]
  /\ 1000 + (0 + -0.1 + -0.2) = 999.70000000000005.
Proof. repeat split. Qed.

(** After the sample bet is placed and won, the balance is
    [1000 + -100 + 190.91]. *)
Lemma ledger_consistency_example :
  In (UserRow.with_current_balance 1090.9100000000001 sample_user)
    (Store.users (App.db sample_settled))
  /\ 1090.9100000000001
     = ledger_balance (UserRow.with_current_balance 1090.9100000000001 sample_user)
         (Store.transactions (App.db sample_settled))
  /\ ledger_balance (UserRow.with_current_balance 1090.9100000000001 sample_user)
       (Store.transactions (App.db sample_settled))
     = 1000 + - 100 + 190.91.
Proof.
  assert (H : In (UserRow.with_current_balance 1090.9100000000001 sample_user)
                (Store.users (App.db sample_settled))) by (left; reflexivity).
  split; [exact H|split; [|reflexivity]].
  exact (ledger_consistency sample_parseFloat 1000
           (sample_actions ++ [SettleBet "t2" sample_bet WON])
           (UserRow.with_current_balance 1090.9100000000001 sample_user) H).
Defined.


(** The sample bet, won: a fair profit of 100 beside the actual 90.91. *)
Lemma fair_and_actual_profit_example :
  well_formed_bet sample_bet = true
  /\ exists settled actual fair,
      find (fun b => Nat.eqb (BetRow.id b) 0) (Store.bets (App.db sample_settled))
      = Some settled
      /\ BetRow.profit settled = Some actual
      /\ BetRow.fair_profit settled = Some fair
      /\ fair = 100
      /\ (sign actual = 0%Z \/ sign actual = 1%Z).
Proof.
  split; [reflexivity|].
  destruct (fair_and_actual_profit "t2" sample_bet WON sample_state sample_user
              (BetRow.with_game None sample_bet) eq_refl eq_refl eq_refl eq_refl)
    as (settled & actual & fair & Hf & Hp & Hq & (E & _ & Hs) & _).
  exists settled, actual, fair. repeat split; assumption.
Defined.


(** The other four shapes, on the same game. *)
Example explanation_of_a_pick_em :
  getSpreadExplanation sample_toString
    (BetRow.mk 0%nat 0%nat 0%nat AWAY "Bills" 0 (-110) 100 "PENDING" "t1"
       None None None None None (Some (GameInfo.mk "Jets" "Bills")))
  = "You bet Bills (pick'em). If Bills win, select WON. If Jets win, select LOST. If the game ends tied, select PUSH."%string.
Proof. reflexivity. Qed.

Example explanation_of_minus_3 :
  getSpreadExplanation sample_toString
    (BetRow.mk 0%nat 0%nat 0%nat HOME "Jets" (-3) (-110) 100 "PENDING" "t1"
       None None None None None (Some (GameInfo.mk "Jets" "Bills")))
  = "You bet Jets -3. If Jets win by more than 3 points, select WON. If they win by exactly 3, select PUSH. If they win by fewer than 3 points or lose, select LOST."%string.
Proof. reflexivity. Qed.

Example explanation_of_plus_3_5 :
  getSpreadExplanation sample_toString
    (BetRow.mk 0%nat 0%nat 0%nat AWAY "Bills" 3.5 (-110) 100 "PENDING" "t1"
       None None None None None (Some (GameInfo.mk "Jets" "Bills")))
  = "You bet Bills +3.5. If Bills win or lose by 3 points or fewer, select WON. If they lose by 4 or more, select LOST."%string.
Proof. reflexivity. Qed.

Example explanation_of_plus_3 :
  getSpreadExplanation sample_toString
    (BetRow.mk 0%nat 0%nat 0%nat AWAY "Bills" 3 (-110) 100 "PENDING" "t1"
       None None None None None (Some (GameInfo.mk "Jets" "Bills")))
  = "You bet Bills +3. If Bills win or lose by fewer than 3 points, select WON. If they lose by exactly 3, select PUSH. If they lose by more than 3, select LOST."%string.
Proof. reflexivity. Qed.



(** * More of the component: what its other functions keep *)

(** ** Logging in twice *)

Lemma find_app_none {A : Type} (f : A -> bool) (l l' : list A) :
  find f l = None -> find f (l ++ l') = find f l'.
Proof.
  induction l as [|x l IH]; simpl; [reflexivity|].
  destruct (f x); [discriminate|exact IH].
Qed.

Lemma find_app_some {A : Type} (f : A -> bool) (l l' : list A) (x : A) :
  find f l = Some x -> find f (l ++ l') = Some x.
Proof.
  induction l as [|y l IH]; simpl; [discriminate|].
  destruct (f y); [trivial|exact IH].
Qed.

Lemma loginWithUsername_fixed initial_balance rawName a u :
  select_user_by_username (trim rawName) (App.db a) = Some u ->
  App.currentUser a = Some u ->
  App.error a = ""%string ->
  App.myBets a = select_bets_of_user (UserRow.id u) (App.db a) ->
  loginWithUsername initial_balance rawName a = a.
Proof.
  intros Hs Hu He Hm. unfold loginWithUsername. rewrite Hs.
  destruct (String.eqb (trim rawName) ""); [reflexivity|].
  unfold fetchMyBets. destruct a as [db cu err sel stake berr bets]. simpl in *.
  now subst.
Qed.

(** X1.  [loginWithUsername] is a lookup-or-create: logging in a second
    time under the same name changes nothing, neither the store (no second
    user, no second INITIAL transaction) nor the session. *)
Theorem login_twice_is_login_once initial_balance rawName a :
  loginWithUsername initial_balance rawName
    (loginWithUsername initial_balance rawName a)
  = loginWithUsername initial_balance rawName a.
Proof.
  destruct (String.eqb (trim rawName) "") eqn:Et.
  - unfold loginWithUsername. now rewrite Et.
  - destruct (select_user_by_username (trim rawName) (App.db a)) as [user|] eqn:E.
    + apply (loginWithUsername_fixed _ _ _ user);
        unfold loginWithUsername; rewrite Et, E; try reflexivity. exact E.
    + apply (loginWithUsername_fixed _ _ _
               (UserRow.mk (List.length (Store.users (App.db a))) (trim rawName)
                  (Some (trim rawName)) initial_balance initial_balance));
        unfold loginWithUsername; rewrite Et, E; try reflexivity.
      unfold select_user_by_username in *. simpl.
      rewrite (find_app_none _ _ _ E). simpl. now rewrite String.eqb_refl.
Qed.

(** ** The games table *)


(** ** What a handler does to the tables *)

(** The store after [handlePlaceBet], whatever the stake. *)
Lemma handlePlaceBet_store parseFloat now a :
  App.db (handlePlaceBet parseFloat now a) = App.db a
  \/ exists row tx,
       Store.bets (App.db (handlePlaceBet parseFloat now a)) = Store.bets (App.db a) ++ [row]
       /\ Store.transactions (App.db (handlePlaceBet parseFloat now a))
          = Store.transactions (App.db a) ++ [tx].
Proof.
  destruct (App.currentUser a) as [cu|] eqn:Ecu;
    [|left; unfold handlePlaceBet; now rewrite Ecu].
  destruct (App.selectedBet a) as [sel|] eqn:Esel;
    [|left; unfold handlePlaceBet; now rewrite Ecu, Esel].
  destruct (stake_accepted (parseFloat (App.stakeInput a)) (UserRow.current_balance cu))
    eqn:Eacc.
  - right.
    destruct (handlePlaceBet_accepted_store parseFloat now a cu sel Ecu Esel Eacc)
      as [[gameId Hb] Ht].
    eexists. eexists. split; [exact Hb|exact Ht].
  - left. destruct (handlePlaceBet_rejected parseFloat now a cu sel Ecu Esel Eacc) as [E|E];
      now rewrite E.
Qed.

(** The store after [handleSettleBet], whatever the bet. *)
Lemma handleSettleBet_store now bet result a :
  App.db (handleSettleBet now bet result a) = App.db a
  \/ exists f tx,
       (forall b, same_terms b (f b))
       /\ Store.bets (App.db (handleSettleBet now bet result a))
          = map (fun b => if Nat.eqb (BetRow.id b) (BetRow.id bet) then f b else b)
              (Store.bets (App.db a))
       /\ Store.transactions (App.db (handleSettleBet now bet result a))
          = Store.transactions (App.db a) ++ [tx].
Proof.
  destruct (App.currentUser a) as [cu|] eqn:Ecu;
    [|left; unfold handleSettleBet; now rewrite Ecu].
  destruct (String.eqb_spec (BetRow.status bet) "PENDING") as [Es|Es].
  - rewrite (handleSettleBet_pending now bet result a cu Ecu Es). cbv zeta.
    unfold update_bet.
    destruct (find _ (Store.bets (App.db a))) as [stored|]; [|now left].
    right. eexists. eexists. split; [|unfold update_user_balance;
      destruct (find _ _); simpl; split; reflexivity].
    intros b. repeat split.
  - left. unfold handleSettleBet. rewrite Ecu.
    destruct (String.eqb_spec (BetRow.status bet) "PENDING"); [contradiction|reflexivity].
Qed.

Lemma loginWithUsername_store initial_balance rawName a :
  Store.bets (App.db (loginWithUsername initial_balance rawName a)) = Store.bets (App.db a)
  /\ Store.games (App.db (loginWithUsername initial_balance rawName a))
     = Store.games (App.db a)
  /\ exists added,
       Store.transactions (App.db (loginWithUsername initial_balance rawName a))
       = Store.transactions (App.db a) ++ added.
Proof.
  unfold loginWithUsername.
  destruct (String.eqb (trim rawName) "");
    [split; [reflexivity|split; [reflexivity|exists []; now rewrite app_nil_r]]|].
  destruct (select_user_by_username _ _); simpl;
    (split; [reflexivity|split; [reflexivity|]]).
  - exists []. now rewrite app_nil_r.
  - eexists. reflexivity.
Qed.

Section Tables.

Variable parseFloat : string -> number.
Variable initial_balance : number.

Lemma step_appends_transactions a act :
  exists added,
    Store.transactions (App.db (step parseFloat initial_balance a act))
    = Store.transactions (App.db a) ++ added.
Proof.
  destruct act as [rawName|game side|text|now|now bet result]; simpl.
  - apply loginWithUsername_store.
  - exists []. rewrite (proj1 (openBetSlip_same game side a)). now rewrite app_nil_r.
  - exists []. now rewrite app_nil_r.
  - destruct (handlePlaceBet_store parseFloat now a) as [E|(row & tx & _ & E)].
    + exists []. rewrite E. now rewrite app_nil_r.
    + now exists [tx].
  - destruct (handleSettleBet_store now bet result a) as [E|(f & tx & _ & _ & E)].
    + exists []. rewrite E. now rewrite app_nil_r.
    + now exists [tx].
Qed.

(** X3.  The ledger is append-only: whatever the user does, the
    transactions recorded so far stay, unchanged and in the same order, at
    the head of the table. *)
Theorem ledger_is_append_only acts : forall a,
  exists added,
    Store.transactions (App.db (run parseFloat initial_balance acts a))
    = Store.transactions (App.db a) ++ added.
Proof.
  induction acts as [|act acts IH]; intros a; simpl.
  - exists []. now rewrite app_nil_r.
  - destruct (IH (step parseFloat initial_balance a act)) as [added2 E2].
    destruct (step_appends_transactions a act) as [added1 E1].
    exists (added1 ++ added2). now rewrite E2, E1, app_assoc.
Qed.

Lemma same_terms_refl b : same_terms b b.
Proof. repeat split. Qed.

Lemma same_terms_trans b1 b2 b3 : same_terms b1 b2 -> same_terms b2 b3 -> same_terms b1 b3.
Proof.
  unfold same_terms. intros H1 H2.
  repeat match goal with H : _ /\ _ |- _ => destruct H end.
  repeat split; congruence.
Qed.

Lemma step_keeps_bets a act i b :
  nth_error (Store.bets (App.db a)) i = Some b ->
  exists b', nth_error (Store.bets (App.db (step parseFloat initial_balance a act))) i = Some b'
             /\ same_terms b b'.
Proof.
  intros H.
  assert (Same : forall a', Store.bets (App.db a') = Store.bets (App.db a) ->
                   exists b', nth_error (Store.bets (App.db a')) i = Some b' /\ same_terms b b').
  { intros a' E. exists b. rewrite E. split; [exact H|apply same_terms_refl]. }
  destruct act as [rawName|game side|text|now|now bet result]; simpl.
  - apply Same. apply loginWithUsername_store.
  - apply Same. now rewrite (proj1 (openBetSlip_same game side a)).
  - apply Same. reflexivity.
  - destruct (handlePlaceBet_store parseFloat now a) as [E|(row & tx & E & _)].
    + apply Same. now rewrite E.
    + exists b. rewrite E. split; [|apply same_terms_refl].
      rewrite nth_error_app1; [exact H|]. apply nth_error_Some. congruence.
  - destruct (handleSettleBet_store now bet result a) as [E|(f & tx & Hf & E & _)].
    + apply Same. now rewrite E.
    + rewrite E, nth_error_map, H. simpl.
      destruct (Nat.eqb (BetRow.id b) (BetRow.id bet)).
      * exists (f b). split; [reflexivity|apply Hf].
      * exists b. split; [reflexivity|apply same_terms_refl].
Qed.

(** X4.  A bet keeps the terms it was placed at: whatever the user does
    afterwards, the row stays at its place in the table with the same id,
    user, game, side, team name, line, odds, stake and placement time; only
    its settlement fields can change. *)
Theorem placed_bets_keep_their_terms acts : forall a i b,
  nth_error (Store.bets (App.db a)) i = Some b ->
  exists b', nth_error (Store.bets (App.db (run parseFloat initial_balance acts a))) i = Some b'
             /\ same_terms b b'.
Proof.
  induction acts as [|act acts IH]; intros a i b H; simpl.
  - exists b. split; [exact H|apply same_terms_refl].
  - destruct (step_keeps_bets a act i b H) as (b1 & H1 & S1).
    destruct (IH _ i b1 H1) as (b2 & H2 & S2).
    exists b2. split; [exact H2|exact (same_terms_trans _ _ _ S1 S2)].
Qed.

End Tables.

(** The sample bet, placed at -3.5 and -110 for 100, after it has been won
    and the user has gone back to the bet slip. *)
Lemma placed_bets_keep_their_terms_example :
  nth_error (Store.bets (App.db sample_state)) 0 = Some (BetRow.with_game None sample_bet)
  /\ exists b',
       nth_error
         (Store.bets
            (App.db (run sample_parseFloat 1000
                       [SettleBet "t2" sample_bet WON; OpenBetSlip sample_game AWAY]
                       sample_state))) 0 = Some b'
       /\ BetRow.stake b' = 100 /\ BetRow.odds_american b' = -110
       /\ BetRow.spread_line b' = -3.5.
Proof.
  split; [reflexivity|].
  destruct (placed_bets_keep_their_terms sample_parseFloat 1000
              [SettleBet "t2" sample_bet WON; OpenBetSlip sample_game AWAY]
              sample_state 0%nat (BetRow.with_game None sample_bet) eq_refl)
    as (b' & H & S).
  exists b'. split; [exact H|].
  destruct S as (_ & _ & _ & _ & _ & S6 & S7 & S8 & _).
  rewrite S6, S7, S8. repeat split.
Defined.

(** ** Every step, case by case *)

Lemma update_user_balance_stored s txs u b :
  ids_ok (Store.users s) txs -> In u (Store.users s) ->
  update_user_balance (UserRow.id u) b s
  = Some (UserRow.with_current_balance b u,
          Store.with_users (credited (UserRow.id u) b (Store.users s)) s).
Proof.
  intros Hok Hu. unfold update_user_balance. now rewrite (find_user_by_id _ _ u Hok Hu).
Qed.

Lemma unchanged_refl a : unchanged a a.
Proof. repeat split. Qed.

(** [loginWithUsername] does nothing, or finds the user, or creates it. *)
Lemma loginWithUsername_cases initial_balance rawName a :
  let a' := loginWithUsername initial_balance rawName a in
  unchanged a a' \/ entered (trim rawName) a a'
  \/ created initial_balance (trim rawName) a a'.
Proof.
  unfold loginWithUsername, entered, created.
  destruct (String.eqb (trim rawName) ""); [left; apply unchanged_refl|].
  destruct (select_user_by_username (trim rawName) (App.db a)) as [user|] eqn:E.
  - right. left. exists user. simpl. auto.
  - right. right. simpl. auto.
Qed.

(** [handlePlaceBet] stops at a guard, or records the bet. *)
Lemma handlePlaceBet_cases parseFloat now a :
  consistent a ->
  let a' := handlePlaceBet parseFloat now a in
  unchanged a a' \/ placed (parseFloat (App.stakeInput a)) now a a'.
Proof.
  intros (Hok & Hl & Hu).
  destruct (App.currentUser a) as [cu|] eqn:Ecu;
    [|left; unfold handlePlaceBet; rewrite Ecu; apply unchanged_refl].
  destruct (App.selectedBet a) as [sel|] eqn:Esel;
    [|left; unfold handlePlaceBet; rewrite Ecu, Esel; apply unchanged_refl].
  destruct (stake_accepted (parseFloat (App.stakeInput a)) (UserRow.current_balance cu))
    eqn:Eacc.
  - right. exists cu, sel. cbv zeta.
    rewrite (handlePlaceBet_accepted parseFloat now a cu sel Ecu Esel Eacc). cbv zeta.
    destruct (ensureGameInDb_ledger (SelectedBet.game sel) (App.db a)) as [Eu Et].
    rewrite (update_user_balance_stored _ (Store.transactions (App.db a))).
    + simpl. rewrite Eu, Et. repeat split; assumption.
    + simpl. now rewrite Eu.
    + simpl. rewrite Eu. now apply Hu.
  - left. destruct (handlePlaceBet_rejected parseFloat now a cu sel Ecu Esel Eacc) as [E|E];
      rewrite E; repeat split.
Qed.

(** [handleSettleBet] stops at a guard, or settles the stored bet that has
    the id of the row it is given. *)
Lemma handleSettleBet_cases now bet result a :
  consistent a ->
  let a' := handleSettleBet now bet result a in
  unchanged a a' \/ settled now bet result a a'.
Proof.
  intros (Hok & Hl & Hu).
  destruct (App.currentUser a) as [cu|] eqn:Ecu;
    [|left; unfold handleSettleBet; rewrite Ecu; repeat split].
  destruct (String.eqb_spec (BetRow.status bet) "PENDING") as [Es|Es].
  - rewrite (handleSettleBet_pending now bet result a cu Ecu Es). cbv zeta.
    unfold update_bet.
    destruct (find _ (Store.bets (App.db a))) as [stored|] eqn:Ef; [|left; repeat split].
    right. exists cu, stored.
    rewrite (update_user_balance_stored _ (Store.transactions (App.db a))).
    + simpl. repeat split; assumption.
    + exact Hok.
    + now apply Hu.
  - left. unfold handleSettleBet. rewrite Ecu.
    destruct (String.eqb_spec (BetRow.status bet) "PENDING"); [contradiction|repeat split].
Qed.

Lemma openBetSlip_unchanged game side a : unchanged a (openBetSlip game side a).
Proof.
  unfold openBetSlip, unchanged. destruct (App.currentUser a) eqn:E; [|simpl; auto].
  destruct side;
    [destruct (NflSpreadGame.homeSpread game)|destruct (NflSpreadGame.awaySpread game)];
    simpl; auto.
Qed.

(** Every step, then. *)
Lemma step_cases parseFloat initial_balance a act :
  consistent a ->
  let a' := step parseFloat initial_balance a act in
  unchanged a a'
  \/ (exists rawName, act = Login rawName
        /\ (entered (trim rawName) a a' \/ created initial_balance (trim rawName) a a'))
  \/ (exists now, act = PlaceBet now /\ placed (parseFloat (App.stakeInput a)) now a a')
  \/ (exists now bet result, act = SettleBet now bet result /\ settled now bet result a a').
Proof.
  intros Hc. destruct act as [rawName|game side|text|now|now bet result]; simpl.
  - destruct (loginWithUsername_cases initial_balance rawName a) as [H|H];
      [now left|right; left; now exists rawName].
  - left. apply openBetSlip_unchanged.
  - left. repeat split.
  - destruct (handlePlaceBet_cases parseFloat now a Hc) as [H|H];
      [now left|right; right; left; now exists now].
  - destruct (handleSettleBet_cases now bet result a Hc) as [H|H];
      [now left|right; right; right; now exists now, bet, result].
Qed.

(** What a step does to the users and to the ledger: nothing, or it creates
    a user with its INITIAL transaction, or it records a transaction of a
    bet for the session's user and writes the balance it leads to. *)
Lemma step_ledger_cases parseFloat initial_balance a act :
  consistent a ->
  let a' := step parseFloat initial_balance a act in
  (Store.users (App.db a') = Store.users (App.db a)
   /\ Store.transactions (App.db a') = Store.transactions (App.db a))
  \/ (exists name,
        let u := UserRow.mk (List.length (Store.users (App.db a))) name (Some name)
                   initial_balance initial_balance in
        select_user_by_username name (App.db a) = None
        /\ Store.users (App.db a') = Store.users (App.db a) ++ [u]
        /\ Store.transactions (App.db a')
           = Store.transactions (App.db a) ++ [initial_transaction_of u])
  \/ (exists cu tx,
        App.currentUser a = Some cu /\ In cu (Store.users (App.db a))
        /\ TransactionInsert.user_id tx = UserRow.id cu
        /\ is_bet_transaction tx = true
        /\ Store.users (App.db a')
           = credited (UserRow.id cu) (TransactionInsert.balance_after tx)
               (Store.users (App.db a))
        /\ Store.transactions (App.db a') = Store.transactions (App.db a) ++ [tx]).
Proof.
  intros Hc. pose proof Hc as (Hok & Hl & Hu).
  destruct act as [rawName|game side|text|now|now bet result]; simpl.
  - destruct (loginWithUsername_cases initial_balance rawName a)
      as [(E & _)|[(u & _ & E & _)|(Hn & E & _)]].
    + left. now rewrite E.
    + left. now rewrite E.
    + right. left. exists (trim rawName). cbv zeta. rewrite E. simpl. auto.
  - left. now rewrite (proj1 (openBetSlip_same game side a)).
  - left. split; reflexivity.
  - destruct (handlePlaceBet_cases parseFloat now a Hc)
      as [(E & _)|(cu & sel & Ecu & _ & _ & Eus & _ & _ & Etx & _)].
    + left. now rewrite E.
    + right. right. exists cu.
      match type of Etx with _ = _ ++ [?t] => exists t end.
      rewrite Eus, Etx.
      split; [exact Ecu|split; [now apply Hu|]]. simpl. auto.
  - destruct (handleSettleBet_cases now bet result a Hc)
      as [(E & _)|(cu & stored & Ecu & _ & _ & Eus & _ & _ & Etx & _)].
    + left. now rewrite E.
    + right. right. exists cu.
      match type of Etx with _ = _ ++ [?t] => exists t end.
      rewrite Eus, Etx.
      split; [exact Ecu|split; [now apply Hu|]]. simpl. auto.
Qed.

Section Runs.

Variable parseFloat : string -> number.
Variable initial_balance : number.

(** What a step keeps, from a consistent state on, every run keeps. *)
Lemma run_invariant (P : App.t -> Prop) :
  (forall a act, consistent a -> P a -> P (step parseFloat initial_balance a act)) ->
  forall acts a, consistent a -> P a -> P (run parseFloat initial_balance acts a).
Proof.
  intros Hstep. induction acts as [|act acts IH]; intros a Hc HP; simpl; [exact HP|].
  apply IH; [now apply step_consistent|now apply Hstep].
Qed.

Lemma run_offered_invariant (P : App.t -> Prop) :
  (forall a act, consistent a -> offered a act -> P a ->
                 P (step parseFloat initial_balance a act)) ->
  forall acts a, all_offered parseFloat initial_balance acts a ->
                 consistent a -> P a -> P (run parseFloat initial_balance acts a).
Proof.
  intros Hstep. induction acts as [|act acts IH]; intros a Ho Hc HP; simpl; [exact HP|].
  destruct Ho as [Ho Hrest].
  apply IH; [exact Hrest|now apply step_consistent|now apply Hstep].
Qed.

End Runs.

(** ** The ledger, user by user *)

Lemma user_transactions_app i txs tx :
  user_transactions i (txs ++ [tx])
  = user_transactions i txs
    ++ (if Nat.eqb (TransactionInsert.user_id tx) i then [tx] else []).
Proof. unfold user_transactions. rewrite filter_app. reflexivity. Qed.

Lemma in_credited i b us u' :
  In u' (credited i b us) ->
  exists u, In u us
            /\ u' = if Nat.eqb (UserRow.id u) i then UserRow.with_current_balance b u else u.
Proof.
  unfold credited. intros H. apply in_map_iff in H. destruct H as (u & <- & Hu).
  now exists u.
Qed.

Lemma user_transactions_fresh us txs :
  ids_ok us txs -> user_transactions (List.length us) txs = [].
Proof.
  intros [_ Htx]. apply filter_none. intros t Ht. specialize (Htx t Ht).
  destruct (Nat.eqb_spec (TransactionInsert.user_id t) (List.length us)); [lia|reflexivity].
Qed.

Lemma latest_balance_after_app i txs tx :
  latest_balance_after i (txs ++ [tx])
  = if Nat.eqb (TransactionInsert.user_id tx) i
    then Some (TransactionInsert.balance_after tx)
    else latest_balance_after i txs.
Proof.
  unfold latest_balance_after. rewrite user_transactions_app.
  destruct (Nat.eqb (TransactionInsert.user_id tx) i).
  - now rewrite rev_app_distr.
  - now rewrite app_nil_r.
Qed.

Section Ledgers.

Variable parseFloat : string -> number.
Variable initial_balance : number.

Lemma step_latest_ok a act :
  consistent a ->
  latest_ok (Store.users (App.db a)) (Store.transactions (App.db a)) ->
  latest_ok (Store.users (App.db (step parseFloat initial_balance a act)))
    (Store.transactions (App.db (step parseFloat initial_balance a act))).
Proof.
  intros Hc H. pose proof Hc as (Hok & _).
  destruct (step_ledger_cases parseFloat initial_balance a act Hc)
    as [[Eu Et]|[(name & _ & Eu & Et)|(cu & tx & _ & Hcu & Htu & _ & Eu & Et)]];
    rewrite Eu, Et; [exact H| |].
  - intros u Hu. rewrite latest_balance_after_app. simpl TransactionInsert.user_id.
    apply in_app_or in Hu. destruct Hu as [Hu|[<-|[]]].
    + pose proof (user_id_lt_length _ _ u Hok Hu).
      destruct (Nat.eqb_spec (List.length (Store.users (App.db a))) (UserRow.id u));
        [lia|now apply H].
    + simpl. now rewrite Nat.eqb_refl.
  - intros u' Hu'. apply in_credited in Hu'. destruct Hu' as (u & Hu & ->).
    rewrite latest_balance_after_app, Htu.
    destruct (Nat.eqb (UserRow.id u) (UserRow.id cu)) eqn:E.
    + simpl UserRow.id. rewrite (Nat.eqb_sym (UserRow.id cu) (UserRow.id u)), E.
      reflexivity.
    + rewrite (Nat.eqb_sym (UserRow.id cu) (UserRow.id u)), E. now apply H.
Qed.

Lemma step_ledger_shape a act :
  consistent a ->
  ledger_shape initial_balance (Store.users (App.db a)) (Store.transactions (App.db a)) ->
  ledger_shape initial_balance
    (Store.users (App.db (step parseFloat initial_balance a act)))
    (Store.transactions (App.db (step parseFloat initial_balance a act))).
Proof.
  intros Hc H. pose proof Hc as (Hok & _).
  destruct (step_ledger_cases parseFloat initial_balance a act Hc)
    as [[Eu Et]|[(name & _ & Eu & Et)|(cu & tx & _ & Hcu & Htu & Hbt & Eu & Et)]];
    rewrite Eu, Et; [exact H| |].
  - intros u Hu. rewrite user_transactions_app. simpl TransactionInsert.user_id.
    apply in_app_or in Hu. destruct Hu as [Hu|[<-|[]]].
    + pose proof (user_id_lt_length _ _ u Hok Hu).
      destruct (Nat.eqb_spec (List.length (Store.users (App.db a))) (UserRow.id u));
        [lia|]. rewrite app_nil_r. now apply H.
    + simpl UserRow.id. rewrite Nat.eqb_refl, (user_transactions_fresh _ _ Hok).
      split; [reflexivity|]. exists []. split; reflexivity.
  - intros u' Hu'. apply in_credited in Hu'. destruct Hu' as (u & Hu & ->).
    destruct (H u Hu) as (Hs & rest & Er & Hr).
    assert (G : forall v, UserRow.id v = UserRow.id u ->
                  UserRow.starting_balance v = UserRow.starting_balance u ->
                  UserRow.starting_balance v = initial_balance
                  /\ exists rest',
                       user_transactions (UserRow.id v) (Store.transactions (App.db a) ++ [tx])
                       = initial_transaction_of v :: rest'
                       /\ forallb is_bet_transaction rest' = true).
    { intros v Ei Es. split; [congruence|].
      rewrite user_transactions_app, Ei, Er.
      replace (initial_transaction_of v) with (initial_transaction_of u)
        by (unfold initial_transaction_of; now rewrite Ei, Es).
      destruct (Nat.eqb (TransactionInsert.user_id tx) (UserRow.id u)).
      - exists (rest ++ [tx]). split; [reflexivity|].
        rewrite forallb_app, Hr. simpl. now rewrite Hbt.
      - exists rest. now rewrite app_nil_r. }
    destruct (Nat.eqb (UserRow.id u) (UserRow.id cu)); apply G; reflexivity.
Qed.

(** X5.  In every state the component reaches from its initial state, the
    current balance of every user is the [balance_after] of the latest
    transaction recorded for that user. *)
Theorem current_balance_is_latest_balance_after acts :
  let s := App.db (run parseFloat initial_balance acts App.initial) in
  Forall (fun u => latest_balance_after (UserRow.id u) (Store.transactions s)
                   = Some (UserRow.current_balance u))
    (Store.users s).
Proof.
  cbv zeta. apply Forall_forall.
  apply (run_invariant parseFloat initial_balance
           (fun a => latest_ok (Store.users (App.db a)) (Store.transactions (App.db a)))).
  - intros a act. apply step_latest_ok.
  - apply initial_consistent.
  - intros u [].
Qed.

(** X6.  In every state the component reaches from its initial state, the
    transactions of every user start with the user's INITIAL transaction,
    whose amount and [balance_after] are the starting balance, and every
    later one is a BET_PLACED or BET_SETTLED transaction with the id of a
    bet: a user has one INITIAL transaction, the first. *)
Theorem ledger_starts_with_initial acts :
  let s := App.db (run parseFloat initial_balance acts App.initial) in
  Forall (fun u =>
            UserRow.starting_balance u = initial_balance
            /\ exists rest,
                 user_transactions (UserRow.id u) (Store.transactions s)
                 = TransactionInsert.mk (UserRow.id u) "INITIAL" initial_balance
                     initial_balance None :: rest
                 /\ forallb is_bet_transaction rest = true)
    (Store.users s).
Proof.
  cbv zeta. apply Forall_forall. intros u Hu.
  assert (H : ledger_shape initial_balance
                (Store.users (App.db (run parseFloat initial_balance acts App.initial)))
                (Store.transactions
                   (App.db (run parseFloat initial_balance acts App.initial)))).
  { apply (run_invariant parseFloat initial_balance
             (fun a => ledger_shape initial_balance (Store.users (App.db a))
                         (Store.transactions (App.db a)))).
    - intros a act. apply step_ledger_shape.
    - apply initial_consistent.
    - intros v []. }
  destruct (H u Hu) as (Hs & rest & Er & Hr).
  split; [exact Hs|]. exists rest. split; [|exact Hr].
  rewrite Er. unfold initial_transaction_of. now rewrite Hs.
Qed.

End Ledgers.

(** ** Names and games *)

Lemma NoDup_snoc {A : Type} (l : list A) (x : A) :
  NoDup l -> ~ In x l -> NoDup (l ++ [x]).
Proof.
  intros Hl Hx. apply NoDup_app; [exact Hl|repeat constructor; intros []|].
  intros y Hy [<-|[]]. now apply Hx.
Qed.

Lemma credited_usernames i b us :
  map UserRow.username (credited i b us) = map UserRow.username us.
Proof.
  unfold credited. rewrite map_map. apply map_ext. intros u.
  destruct (Nat.eqb (UserRow.id u) i); reflexivity.
Qed.

Lemma ensureGameInDb_keys game s :
  NoDup (map GameRow.external_game_id (Store.games s)) ->
  NoDup (map GameRow.external_game_id (Store.games (snd (ensureGameInDb game s)))).
Proof.
  intros H. unfold ensureGameInDb.
  destruct (select_game_by_external_id (NflSpreadGame.id game) s) eqn:E; [exact H|].
  simpl. rewrite map_app. apply NoDup_snoc; [exact H|].
  simpl. intros Hin. apply in_map_iff in Hin. destruct Hin as (g & Eg & Hg).
  unfold select_game_by_external_id in E. apply (find_none _ _ E) in Hg.
  rewrite Eg in Hg. now rewrite String.eqb_refl in Hg.
Qed.

Section Keys.

Variable parseFloat : string -> number.
Variable initial_balance : number.

Lemma step_keys_unique a act :
  consistent a -> keys_unique (App.db a) ->
  keys_unique (App.db (step parseFloat initial_balance a act)).
Proof.
  intros Hc [Hn Hg].
  destruct (step_cases parseFloat initial_balance a act Hc)
    as [(E & _)|[(rawName & _ & [(u & _ & E & _)|(Hnone & E & _)])
       |[(now & _ & cu & sel & _ & _ & _ & Eu & Eg & _)
        |(now & bet & result & _ & cu & stored & _ & _ & _ & Eu & Eg & _)]]].
  - rewrite E. now split.
  - rewrite E. now split.
  - rewrite E. split; [|exact Hg]. simpl. rewrite map_app. apply NoDup_snoc; [exact Hn|].
    simpl. intros Hin. apply in_map_iff in Hin. destruct Hin as (v & Ev & Hv).
    unfold select_user_by_username in Hnone. apply (find_none _ _ Hnone) in Hv.
    rewrite Ev in Hv. now rewrite String.eqb_refl in Hv.
  - unfold keys_unique. rewrite Eu, Eg, credited_usernames.
    split; [exact Hn|now apply ensureGameInDb_keys].
  - unfold keys_unique. rewrite Eu, Eg, credited_usernames. now split.
Qed.

(** X7.  In every state the component reaches from its initial state, no
    two users have the same name and no two games the same external id:
    logging in under a name that is taken and betting on a game that is
    stored never add a row. *)
Theorem names_and_games_are_unique acts :
  let s := App.db (run parseFloat initial_balance acts App.initial) in
  NoDup (map UserRow.username (Store.users s))
  /\ NoDup (map GameRow.external_game_id (Store.games s)).
Proof.
  apply (run_invariant parseFloat initial_balance (fun a => keys_unique (App.db a))).
  - intros a act. apply step_keys_unique.
  - apply initial_consistent.
  - split; constructor.
Qed.

End Keys.

(** ** The bets the page shows *)

Section Shown.

Variable parseFloat : string -> number.
Variable initial_balance : number.

Lemma step_shown_ok a act :
  consistent a -> shown_ok a -> shown_ok (step parseFloat initial_balance a act).
Proof.
  intros Hc H. unfold shown_ok in *.
  destruct (step_cases parseFloat initial_balance a act Hc)
    as [(Ed & Eu & Em)|[(rawName & _ & [(u & _ & _ & Eu & Em)|(_ & _ & Eu & Em)])
       |[(now & _ & cu & sel & _ & _ & _ & _ & _ & _ & _ & Eu & Em)
        |(now & bet & result & _ & cu & stored & _ & _ & _ & _ & _ & _ & _ & Eu & Em)]]];
    rewrite Eu; try exact Em.
  rewrite Em, Ed. exact H.
Qed.

(** X8.  In every state the component reaches from its initial state, the
    list of bets the page shows is the list of the logged-in user's stored
    bets, latest placement first, as a query of the store would give it
    now; it is empty while nobody is logged in. *)
Theorem shown_bets_are_the_stored_ones acts :
  let a := run parseFloat initial_balance acts App.initial in
  match App.currentUser a with
  | Some u => App.myBets a = select_bets_of_user (UserRow.id u) (App.db a)
  | None => App.myBets a = []
  end.
Proof.
  apply (run_invariant parseFloat initial_balance shown_ok).
  - intros a act. apply step_shown_ok.
  - apply initial_consistent.
  - reflexivity.
Qed.

End Shown.

(** ** The bets and the ledger *)

Lemma bet_transactions_app kind i txs tx :
  bet_transactions kind i (txs ++ [tx])
  = bet_transactions kind i txs
    ++ (if match TransactionInsert.bet_id tx with
           | Some j => Nat.eqb j i && String.eqb (TransactionInsert.type tx) kind
           | None => false
           end
        then [tx] else []).
Proof. unfold bet_transactions. rewrite filter_app. reflexivity. Qed.

Lemma bet_transactions_other kind i txs tx :
  TransactionInsert.bet_id tx <> Some i ->
  bet_transactions kind i (txs ++ [tx]) = bet_transactions kind i txs.
Proof.
  intros H. rewrite bet_transactions_app.
  destruct (TransactionInsert.bet_id tx) as [j|]; [|apply app_nil_r].
  destruct (Nat.eqb_spec j i); [congruence|apply app_nil_r].
Qed.

Lemma accounted_other b txs tx :
  TransactionInsert.bet_id tx <> Some (BetRow.id b) ->
  accounted b txs -> accounted b (txs ++ [tx]).
Proof.
  intros H. unfold accounted. now rewrite !(bet_transactions_other _ _ _ _ H).
Qed.

Lemma bet_id_lt_length s b :
  bets_ok s -> In b (Store.bets s) -> (BetRow.id b < List.length (Store.bets s))%nat.
Proof.
  intros [Hid _] Hb. destruct (In_nth_error _ _ Hb) as [i Hi].
  rewrite (Hid i b Hi). apply nth_error_Some. congruence.
Qed.

Lemma bet_ids_unique s b b' :
  bets_ok s -> In b (Store.bets s) -> In b' (Store.bets s) ->
  BetRow.id b = BetRow.id b' -> b = b'.
Proof.
  intros [Hid _] Hb Hb' E.
  destruct (In_nth_error _ _ Hb) as [i Hi].
  destruct (In_nth_error _ _ Hb') as [j Hj].
  pose proof (Hid i b Hi). pose proof (Hid j b' Hj).
  assert (i = j) by congruence. subst j. congruence.
Qed.

Lemma bet_transactions_fresh kind s :
  bets_ok s -> bet_transactions kind (List.length (Store.bets s)) (Store.transactions s) = [].
Proof.
  intros [_ Htx]. apply filter_none. intros t Ht.
  destruct (TransactionInsert.bet_id t) as [j|] eqn:E; [|reflexivity].
  specialize (Htx t j Ht E).
  destruct (Nat.eqb_spec j (List.length (Store.bets s))); [lia|reflexivity].
Qed.

(** A row of the list of a user's bets is a stored bet of that user, with
    its game joined. *)
Lemma in_select_bets_of_user bet i s :
  In bet (select_bets_of_user i s) ->
  exists b, In b (Store.bets s) /\ BetRow.user_id b = i
            /\ BetRow.id bet = BetRow.id b /\ BetRow.status bet = BetRow.status b.
Proof.
  unfold select_bets_of_user. intros H. apply in_map_iff in H.
  destruct H as (b & <- & Hb). apply in_rev, filter_In in Hb. destruct Hb as [Hb E].
  exists b. apply Nat.eqb_eq in E. now repeat split.
Qed.

Lemma status_of_not_pending result : String.eqb (status_of result) "PENDING" = false.
Proof. destruct result; reflexivity. Qed.

Section Bets.

Variable parseFloat : string -> number.
Variable initial_balance : number.

Lemma step_bets_ok a act :
  consistent a -> bets_ok (App.db a) ->
  bets_ok (App.db (step parseFloat initial_balance a act)).
Proof.
  intros Hc Hb. pose proof Hb as [Hid Htx].
  destruct (step_cases parseFloat initial_balance a act Hc)
    as [(E & _)|[(rawName & _ & [(u & _ & E & _)|(_ & E & _)])
       |[(now & _ & cu & sel & _ & _ & _ & _ & _ & Eb & Et & _)
        |(now & bet & result & _ & cu & stored & _ & _ & Ef & _ & _ & Eb & Et & _)]]].
  - now rewrite E.
  - now rewrite E.
  - rewrite E. split; [exact Hid|]. simpl. intros tx i Hin Ei.
    apply in_app_or in Hin. destruct Hin as [Hin|[<-|[]]]; [|discriminate].
    now apply (Htx tx).
  - unfold bets_ok. rewrite Eb, Et. split.
    + intros i b Hi. destruct (Nat.lt_ge_cases i (List.length (Store.bets (App.db a))))
        as [Hlt|Hge].
      * rewrite nth_error_app1 in Hi by exact Hlt. now apply Hid.
      * rewrite nth_error_app2 in Hi by exact Hge.
        destruct (i - List.length (Store.bets (App.db a)))%nat as [|k] eqn:Ek.
        -- injection Hi as <-. simpl. lia.
        -- destruct k; discriminate.
    + intros tx i Hin Ei. rewrite length_app. simpl.
      apply in_app_or in Hin. destruct Hin as [Hin|[<-|[]]].
      * specialize (Htx tx i Hin Ei). lia.
      * simpl in Ei. injection Ei as <-. lia.
  - unfold bets_ok. rewrite Eb, Et. unfold rewritten. split.
    + intros i b Hi. rewrite nth_error_map in Hi.
      destruct (nth_error (Store.bets (App.db a)) i) as [b0|] eqn:E0; [|discriminate].
      injection Hi as <-. rewrite <- (Hid i b0 E0).
      destruct (Nat.eqb (BetRow.id b0) (BetRow.id bet)); reflexivity.
    + intros tx i Hin Ei. rewrite length_map.
      apply in_app_or in Hin. destruct Hin as [Hin|[<-|[]]]; [now apply (Htx tx)|].
      simpl in Ei. injection Ei as <-.
      apply find_some in Ef. destruct Ef as [Hs Es]. apply Nat.eqb_eq in Es.
      rewrite <- Es. now apply bet_id_lt_length.
Qed.

Lemma step_accounted a act :
  consistent a -> offered a act -> bets_ok (App.db a) -> shown_ok a ->
  (forall b, In b (Store.bets (App.db a)) -> accounted b (Store.transactions (App.db a))) ->
  forall b, In b (Store.bets (App.db (step parseFloat initial_balance a act))) ->
            accounted b (Store.transactions (App.db (step parseFloat initial_balance a act))).
Proof.
  intros Hc Ho Hb Hs H.
  destruct (step_cases parseFloat initial_balance a act Hc)
    as [(E & _)|[(rawName & _ & [(u & _ & E & _)|(_ & E & _)])
       |[(now & _ & cu & sel & _ & _ & _ & _ & _ & Eb & Et & _)
        |(now & bet & result & -> & cu & stored & Ecu & _ & Ef & _ & _ & Eb & Et & _)]]].
  - now rewrite E.
  - now rewrite E.
  - rewrite E. simpl. intros b Hin. apply accounted_other; [discriminate|now apply H].
  - rewrite Eb, Et. intros b Hin. apply in_app_or in Hin. destruct Hin as [Hin|[<-|[]]].
    + apply accounted_other; [|now apply H].
      simpl. pose proof (bet_id_lt_length _ _ Hb Hin). intros [= E]. lia.
    + unfold accounted.
      cbn [BetRow.id BetRow.user_id BetRow.stake BetRow.status BetRow.payout].
      rewrite !bet_transactions_app, !(bet_transactions_fresh _ _ Hb).
      simpl. rewrite Nat.eqb_refl. simpl. split; [eexists; reflexivity|reflexivity].
  - rewrite Eb, Et. intros b' Hin. unfold rewritten in Hin. apply in_map_iff in Hin.
    destruct Hin as (b & <- & Hin).
    destruct (Nat.eqb_spec (BetRow.id b) (BetRow.id bet)) as [Ei|Ei].
    + (* the bet that is settled: the row shown is this one, and PENDING *)
      destruct Ho as [Hshown Hpending].
      unfold shown_ok in Hs. rewrite Ecu in Hs. rewrite Hs in Hshown.
      apply in_select_bets_of_user in Hshown.
      destruct Hshown as (b0 & Hb0 & Eu0 & Ei0 & Es0).
      assert (b0 = b) by (apply (bet_ids_unique _ _ _ Hb Hb0 Hin); congruence). subst b0.
      destruct (H b Hin) as [(balance & Hp) Hset].
      rewrite <- Es0, Hpending in Hset. simpl in Hset.
      unfold accounted. rewrite !bet_transactions_app. simpl.
      rewrite Hp, Hset, status_of_not_pending, <- Ei, Nat.eqb_refl. simpl.
      split; [exists balance; reflexivity|].
      eexists. eexists. split; [reflexivity|]. now rewrite Eu0.
    + apply accounted_other; [|now apply H]. simpl. congruence.
Qed.

(** X9.  Along every sequence of actions the page offers, from its initial
    state on, every stored bet is accounted for in the ledger: there is one
    BET_PLACED transaction for it, of its user and for minus its stake;
    while it is PENDING there is no BET_SETTLED transaction for it, and once
    it is settled there is one, of its user and for its payout.  A bet is
    settled, and paid, at most once. *)
Theorem every_bet_is_accounted_for_once acts :
  all_offered parseFloat initial_balance acts App.initial ->
  let s := App.db (run parseFloat initial_balance acts App.initial) in
  Forall (fun b => accounted b (Store.transactions s)) (Store.bets s).
Proof.
  intros Ho. cbv zeta. apply Forall_forall.
  assert (H : bets_ok (App.db (run parseFloat initial_balance acts App.initial))
              /\ shown_ok (run parseFloat initial_balance acts App.initial)
              /\ forall b,
                   In b (Store.bets (App.db (run parseFloat initial_balance acts App.initial)))
                   -> accounted b
                        (Store.transactions
                           (App.db (run parseFloat initial_balance acts App.initial)))).
  { apply (run_offered_invariant parseFloat initial_balance
             (fun a => bets_ok (App.db a) /\ shown_ok a
                       /\ forall b, In b (Store.bets (App.db a)) ->
                                    accounted b (Store.transactions (App.db a)))).
    - intros a act Hc Hoa (Hb & Hs & Hacc). split; [|split].
      + now apply step_bets_ok.
      + now apply step_shown_ok.
      + now apply step_accounted.
    - exact Ho.
    - apply initial_consistent.
    - split; [|split].
      + split; [intros [|i] b; discriminate|intros tx i []].
      + reflexivity.
      + intros b []. }
  apply H.
Qed.

End Bets.

(** The sample bet is placed, then settled from its row in the list. *)
Lemma every_bet_is_accounted_for_once_example :
  all_offered sample_parseFloat 1000
    (sample_actions ++ [SettleBet "t2" sample_bet WON]) App.initial
  /\ Forall
       (fun b =>
          accounted b
            (Store.transactions
               (App.db (run sample_parseFloat 1000
                          (sample_actions ++ [SettleBet "t2" sample_bet WON])
                          App.initial))))
       (Store.bets
          (App.db (run sample_parseFloat 1000
                     (sample_actions ++ [SettleBet "t2" sample_bet WON]) App.initial))).
Proof.
  assert (H : all_offered sample_parseFloat 1000
                (sample_actions ++ [SettleBet "t2" sample_bet WON]) App.initial).
  { simpl. repeat split. left. reflexivity. }
  split; [exact H|].
  exact (every_bet_is_accounted_for_once sample_parseFloat 1000
           (sample_actions ++ [SettleBet "t2" sample_bet WON]) H).
Defined.

(** ** A row that is out of date *)

Lemma handleSettleBet_settled now bet result a cu stored :
  consistent a -> App.currentUser a = Some cu -> BetRow.status bet = "PENDING"%string ->
  find (fun b => Nat.eqb (BetRow.id b) (BetRow.id bet)) (Store.bets (App.db a))
  = Some stored ->
  settled now bet result a (handleSettleBet now bet result a).
Proof.
  intros (Hok & Hl & Hu) Ecu Es Ef.
  rewrite (handleSettleBet_pending now bet result a cu Ecu Es). cbv zeta.
  unfold update_bet. rewrite Ef. exists cu, stored.
  rewrite (update_user_balance_stored _ (Store.transactions (App.db a))).
  - simpl. repeat split; assumption.
  - exact Hok.
  - now apply Hu.
Qed.

(** X10.  [handleSettleBet] tests the status of the row it is given, not of
    the stored bet.  Called a second time with the same PENDING row, one
    that is out of date by then, it settles the bet again: a second
    BET_SETTLED transaction is recorded for the bet and the second payout is
    added to the balance too. *)
Theorem settling_from_a_stale_row_pays_again now1 now2 bet r1 r2 a cu stored :
  consistent a -> App.currentUser a = Some cu -> BetRow.status bet = "PENDING"%string ->
  find (fun b => Nat.eqb (BetRow.id b) (BetRow.id bet)) (Store.bets (App.db a))
  = Some stored ->
  let p1 := table_payout r1 (BetRow.stake bet) (BetRow.odds_american bet) in
  let p2 := table_payout r2 (BetRow.stake bet) (BetRow.odds_american bet) in
  let a' := handleSettleBet now2 bet r2 (handleSettleBet now1 bet r1 a) in
  Store.transactions (App.db a')
  = Store.transactions (App.db a)
    ++ [TransactionInsert.mk (UserRow.id cu) "BET_SETTLED" p1
          (UserRow.current_balance cu + p1) (Some (BetRow.id bet));
        TransactionInsert.mk (UserRow.id cu) "BET_SETTLED" p2
          (UserRow.current_balance cu + p1 + p2) (Some (BetRow.id bet))]
  /\ App.currentUser a'
     = Some (UserRow.with_current_balance (UserRow.current_balance cu + p1 + p2) cu).
Proof.
  intros Hc Ecu Es Ef p1 p2 a'.
  destruct (handleSettleBet_settled now1 bet r1 a cu stored Hc Ecu Es Ef)
    as (cu1 & stored1 & Ecu1 & _ & _ & _ & _ & Eb1 & Et1 & Eu1 & _).
  cbv zeta in *. rewrite Ecu in Ecu1. injection Ecu1 as <-.
  assert (Hc1 : consistent (handleSettleBet now1 bet r1 a))
    by now apply handleSettleBet_consistent.
  assert (Ef1 : exists stored',
             find (fun b => Nat.eqb (BetRow.id b) (BetRow.id bet))
               (Store.bets (App.db (handleSettleBet now1 bet r1 a))) = Some stored').
  { eexists. rewrite Eb1. unfold rewritten.
    apply (find_map_update BetRow.id); [reflexivity|exact Ef]. }
  destruct Ef1 as [stored' Ef1].
  destruct (handleSettleBet_settled now2 bet r2 _ _ stored' Hc1 Eu1 Es Ef1)
    as (cu2 & stored2 & Ecu2 & _ & _ & _ & _ & _ & Et2 & Eu2 & _).
  cbv zeta in *. rewrite Eu1 in Ecu2. injection Ecu2 as <-.
  unfold a'. rewrite Et2, Eu2, Et1, <- app_assoc. split; reflexivity.
Qed.

(** The sample bet, settled as WON twice from the row of the first list:
    190.91 is paid twice on a stake of 100, to a balance of 900. *)
Lemma settling_from_a_stale_row_pays_again_example :
  App.currentUser sample_state = Some sample_user
  /\ BetRow.status sample_bet = "PENDING"%string
  /\ option_map UserRow.current_balance
       (App.currentUser
          (handleSettleBet "t3" sample_bet WON
             (handleSettleBet "t2" sample_bet WON sample_state)))
     = Some 1281.8200000000002.
Proof.
  split; [reflexivity|split; [reflexivity|]].
  assert (Hc : consistent sample_state)
    by (apply run_consistent, initial_consistent).
  destruct (settling_from_a_stale_row_pays_again "t2" "t3" sample_bet WON WON
              sample_state sample_user (BetRow.with_game None sample_bet)
              Hc eq_refl eq_refl eq_refl) as [_ E].
  rewrite E. reflexivity.
Defined.

(** ** The users who are not logged in *)

Section Others.

Variable parseFloat : string -> number.
Variable initial_balance : number.



End Others.


(** ** The fair balance *)

Lemma fairProfitSum_joined (g : BetRow.t -> option GameInfo.t) (l : list BetRow.t) :
  fairProfitSum (map (fun b => BetRow.with_game (g b) b) l) = fairProfitSum l.
Proof.
  unfold fairProfitSum.
  set (add := fun (sum : number) (b : BetRow.t) =>
                sum + match BetRow.fair_profit b with Some f => f | None => 0 end).
  set (has := fun b : BetRow.t =>
                match BetRow.fair_profit b with Some _ => true | None => false end).
  assert (H : forall acc,
             fold_left add (filter has (map (fun b => BetRow.with_game (g b) b) l)) acc
             = fold_left add (filter has l) acc).
  { induction l as [|b l IH]; intros acc; simpl; [reflexivity|].
    replace (has (BetRow.with_game (g b) b)) with (has b) by reflexivity.
    destruct (has b); simpl; apply IH. }
  apply H.
Qed.

Lemma fairProfitSum_select i s :
  fairProfitSum (select_bets_of_user i s)
  = fairProfitSum (rev (filter (fun b => Nat.eqb (BetRow.user_id b) i) (Store.bets s))).
Proof. unfold select_bets_of_user. apply fairProfitSum_joined. Qed.

Section FairBalance.

Variable parseFloat : string -> number.
Variable initial_balance : number.

(** X12.  Placing a bet does not move the fair balance the page shows: in
    every state the component reaches from its initial state, the fair
    balance after [handlePlaceBet] is the one before, whether the stake is
    accepted or not.  A PENDING bet has no fair profit yet. *)
Theorem placing_a_bet_keeps_the_fair_balance acts now :
  let a := run parseFloat initial_balance acts App.initial in
  fairBalance (handlePlaceBet parseFloat now a) = fairBalance a.
Proof.
  cbv zeta. set (a := run parseFloat initial_balance acts App.initial).
  assert (Hc : consistent a) by apply run_consistent, initial_consistent.
  assert (Hs : shown_ok a).
  { apply (run_invariant parseFloat initial_balance shown_ok).
    - intros a0 act. apply step_shown_ok.
    - apply initial_consistent.
    - reflexivity. }
  destruct (handlePlaceBet_cases parseFloat now a Hc)
    as [(_ & Eu & Em)|(cu & sel & Ecu & _ & _ & _ & _ & Eb & _ & Eu & Em)];
    unfold fairBalance.
  - now rewrite Eu, Em.
  - cbv zeta in *. unfold shown_ok in Hs. rewrite Ecu in Hs.
    rewrite Eu, Ecu, Em, Hs, !fairProfitSum_select, Eb.
    rewrite filter_app. simpl. rewrite Nat.eqb_refl, rev_app_distr. reflexivity.
Qed.

End FairBalance.

(** ** Even money *)

Lemma Prim2SF_one : Prim2SF 1 = S754_finite false 4503599627370496 (-52).
Proof. reflexivity. Qed.

Lemma SFmul_one_finite s m e :
  valid_binary (S754_finite s m e) = true ->
  SFmul prec emax (S754_finite s m e) (S754_finite false 4503599627370496 (-52))
  = S754_finite s m e.
Proof.
  intros V.
  unfold SpecFloat.valid_binary, bounded, canonical_mantissa in V.
  apply andb_prop in V. destruct V as [Vc Vb].
  apply Z.eqb_eq in Vc. apply Z.leb_le in Vb.
  assert (H := binary_round_aux_shifted s m e 52 Vc).
  replace (e - 52)%Z with (e + -52)%Z in H by lia.
  rewrite (proj2 (Z.leb_le _ _) Vb) in H.
  unfold SFmul. rewrite xorb_false_r.
  replace (m * 4503599627370496)%positive with (Pos.iter xO m 52)
    by (rewrite Pos.mul_comm; reflexivity).
  exact H.
Qed.

Lemma mul_one (x : float) : x * 1 = x.
Proof.
  apply Prim2SF_inj. rewrite mul_spec, Prim2SF_one.
  pose proof (Prim2SF_valid x) as V.
  destruct (Prim2SF x) as [[|]|[|]| |s m e]; try reflexivity.
  now apply SFmul_one_finite.
Qed.

(** X13.  At even money, odds of +100 or of -100, the profit
    [calculateProfit] gives is the stake itself, exactly, whatever the
    stake. *)
Theorem calculateProfit_even_money (stake : number) :
  calculateProfit stake 100 = stake /\ calculateProfit stake (-100) = stake.
Proof.
  split.
  - rewrite (calculateProfit_positive_odds stake 100 eq_refl).
    replace (100 / 100) with 1 by reflexivity. apply mul_one.
  - rewrite (calculateProfit_negative_odds stake (-100) eq_refl).
    replace (100 / Math.abs (-100)) with 1 by reflexivity. apply mul_one.
Qed.

(** ** The quotes *)

Lemma toGame_fields game :
  NflSpreadGame.id (QuotedGame.game (toGame game)) = OddsGame.id game
  /\ NflSpreadGame.homeTeam (QuotedGame.game (toGame game)) = OddsGame.home_team game
  /\ NflSpreadGame.awayTeam (QuotedGame.game (toGame game)) = OddsGame.away_team game
  /\ NflSpreadGame.commenceTime (QuotedGame.game (toGame game)) = OddsGame.commence_time game.
Proof. unfold toGame. destruct (find _ _); simpl; auto. Qed.

Lemma toSide_find name outcomes spread :
  toSide (find (fun o => String.eqb (Outcome.name o) name) outcomes) = Some spread ->
  SpreadSide.teamName spread = name.
Proof.
  destruct (find _ outcomes) as [o|] eqn:E; [|discriminate].
  simpl. intros [= <-]. simpl. apply find_some in E. now apply String.eqb_eq.
Qed.

Lemma toGame_quote game side spread :
  match side with
  | HOME => NflSpreadGame.homeSpread (QuotedGame.game (toGame game))
  | AWAY => NflSpreadGame.awaySpread (QuotedGame.game (toGame game))
  end = Some spread ->
  SpreadSide.teamName spread
  = match side with HOME => OddsGame.home_team game | AWAY => OddsGame.away_team game end.
Proof.
  unfold toGame. destruct (find _ (or_empty (OddsGame.bookmakers game))) as [bookmaker|].
  - destruct side; simpl; apply toSide_find.
  - destruct side; discriminate.
Qed.

Lemma toGame_quoted_from game : quoted_from game (toGame game).
Proof.
  unfold quoted_from. cbv zeta. destruct (toGame_fields game) as (H1 & H2 & H3 & H4).
  split; [exact H1|split; [exact H2|split; [exact H3|split; [exact H4|]]]].
  split; [|split].
  - intros spread. apply (toGame_quote game HOME).
  - intros spread. apply (toGame_quote game AWAY).
  - intros Hno. unfold toGame.
    destruct (find _ (or_empty (OddsGame.bookmakers game))) as [bookmaker|] eqn:E;
      [|split; reflexivity].
    apply find_some in E. destruct E as [Hin Hkey].
    rewrite forallb_forall in Hno. specialize (Hno bookmaker Hin).
    now rewrite Hkey in Hno.
Qed.

(** X14.  [fetchNflSpreadsDraftKings] returns the games of the odds API's
    answer one for one and in their order; each keeps its id, its teams and
    its start; the quote given for its home side, if any, is in the name of
    the home team, the one for its away side in the name of the away team;
    and a game that DraftKings does not list has no quote on either side. *)
Theorem quotes_are_in_the_name_of_their_team json :
  Forall2 quoted_from json (toGames json).
Proof.
  unfold toGames. induction json as [|game json IH]; simpl; constructor.
  - apply toGame_quoted_from.
  - exact IH.
Qed.

(** ** From a quote to a bet *)




(** ** The user named in the address *)






Section Address.

Variable initial_balance : number.
Variable decodeURIComponent : string -> string.


End Address.



(** ** White space around a name *)






(** ** References *)

Lemma positions_snoc {A : Type} (key : A -> row_id) (l : list A) (x : A) :
  (forall i y, nth_error l i = Some y -> key y = i) -> key x = List.length l ->
  forall i y, nth_error (l ++ [x]) i = Some y -> key y = i.
Proof.
  intros Hl Hx i y Hy. destruct (Nat.lt_ge_cases i (List.length l)) as [Hi|Hi].
  - rewrite nth_error_app1 in Hy by exact Hi. now apply Hl.
  - rewrite nth_error_app2 in Hy by exact Hi.
    destruct (i - List.length l)%nat as [|k] eqn:Ek.
    + injection Hy as <-. lia.
    + destruct k; discriminate.
Qed.

Lemma positions_resolve {A : Type} (key : A -> row_id) (l : list A) (i : row_id) :
  (forall j y, nth_error l j = Some y -> key y = j) -> (i < List.length l)%nat ->
  resolves key l i.
Proof.
  intros Hl Hi. destruct (nth_error l i) as [y|] eqn:E.
  - exists y. split; [exact E|now apply Hl].
  - apply nth_error_None in E. lia.
Qed.

Lemma ensureGameInDb_games game s :
  (forall i g, nth_error (Store.games s) i = Some g -> GameRow.id g = i) ->
  (forall i g, nth_error (Store.games (snd (ensureGameInDb game s))) i = Some g ->
               GameRow.id g = i)
  /\ (List.length (Store.games s)
      <= List.length (Store.games (snd (ensureGameInDb game s))))%nat
  /\ (GameRow.id (fst (ensureGameInDb game s))
      < List.length (Store.games (snd (ensureGameInDb game s))))%nat.
Proof.
  intros Hid. unfold ensureGameInDb.
  destruct (select_game_by_external_id (NflSpreadGame.id game) s) as [existing|] eqn:E; simpl.
  - split; [exact Hid|split; [lia|]].
    unfold select_game_by_external_id in E. apply find_some in E. destruct E as [Hin _].
    destruct (In_nth_error _ _ Hin) as [i Hi]. rewrite (Hid i existing Hi).
    apply nth_error_Some. congruence.
  - rewrite length_app. simpl. split; [|lia].
    apply positions_snoc; [exact Hid|reflexivity].
Qed.

Section References.

Variable parseFloat : string -> number.
Variable initial_balance : number.

Lemma step_refs_ok a act :
  consistent a -> refs_ok (App.db a) ->
  refs_ok (App.db (step parseFloat initial_balance a act)).
Proof.
  intros Hc Hr. pose proof Hc as (Hok & _ & Hu). pose proof Hr as [Hid Hb].
  destruct (step_cases parseFloat initial_balance a act Hc)
    as [(E & _)|[(rawName & _ & [(u & _ & E & _)|(_ & E & _)])
       |[(now & _ & cu & sel & Ecu & _ & _ & Eus & Eg & Eb & _)
        |(now & bet & result & _ & cu & stored & _ & _ & _ & Eus & Eg & Eb & _)]]].
  - now rewrite E.
  - now rewrite E.
  - rewrite E. split; [exact Hid|]. simpl. intros b Hin. rewrite length_app. simpl.
    destruct (Hb b Hin). split; lia.
  - cbv zeta in *.
    destruct (ensureGameInDb_games (SelectedBet.game sel) (App.db a) Hid) as (G1 & G2 & G3).
    unfold refs_ok. rewrite Eus, Eg, Eb. unfold credited. rewrite length_map.
    split; [exact G1|]. intros b Hin. apply in_app_or in Hin.
    destruct Hin as [Hin|[<-|[]]].
    + destruct (Hb b Hin). split; lia.
    + simpl. split; [|exact G3].
      apply (user_id_lt_length _ _ cu Hok). now apply Hu.
  - cbv zeta in *. unfold refs_ok. rewrite Eus, Eg, Eb. unfold credited, rewritten.
    rewrite length_map. split; [exact Hid|]. intros b' Hin. apply in_map_iff in Hin.
    destruct Hin as (b & <- & Hin). destruct (Hb b Hin).
    destruct (Nat.eqb (BetRow.id b) (BetRow.id bet)); simpl; split; assumption.
Qed.

(** X18.  In every state the component reaches from its initial state,
    every reference resolves: each bet names a stored user and a stored
    game, each transaction a stored user and, when it has one, a stored
    bet, the row being the one at the place the id gives. *)
Theorem every_reference_resolves acts :
  let s := App.db (run parseFloat initial_balance acts App.initial) in
  Forall (fun b => resolves UserRow.id (Store.users s) (BetRow.user_id b)
                   /\ resolves GameRow.id (Store.games s) (BetRow.game_id b))
    (Store.bets s)
  /\ Forall (fun tx => resolves UserRow.id (Store.users s) (TransactionInsert.user_id tx)
                       /\ match TransactionInsert.bet_id tx with
                          | Some i => resolves BetRow.id (Store.bets s) i
                          | None => True
                          end)
       (Store.transactions s).
Proof.
  cbv zeta. set (a := run parseFloat initial_balance acts App.initial).
  assert (Hc : consistent a) by apply run_consistent, initial_consistent.
  assert (Hb : bets_ok (App.db a)).
  { apply (run_invariant parseFloat initial_balance (fun a => bets_ok (App.db a))).
    - intros a0 act. apply step_bets_ok.
    - apply initial_consistent.
    - split; [intros [|i] b; discriminate|intros tx i []]. }
  assert (Hr : refs_ok (App.db a)).
  { apply (run_invariant parseFloat initial_balance (fun a => refs_ok (App.db a))).
    - intros a0 act. apply step_refs_ok.
    - apply initial_consistent.
    - split; [intros [|i] g; discriminate|intros b []]. }
  destruct Hc as ([Hu Htu] & _). destruct Hb as [Hbi Htb]. destruct Hr as [Hg Hbr].
  split; apply Forall_forall.
  - intros b Hin. destruct (Hbr b Hin). split; now apply positions_resolve.
  - intros tx Hin. split; [apply positions_resolve; [exact Hu|now apply Htu]|].
    destruct (TransactionInsert.bet_id tx) as [i|] eqn:E; [|exact I].
    apply positions_resolve; [exact Hbi|now apply (Htb tx)].
Qed.

End References.

(** ** The settlement fields *)

Lemma stake_accepted_positive p b : stake_accepted p b = true -> (0 <? p) = true.
Proof.
  unfold stake_accepted, isNaN. rewrite is_nan_spec, leb_x_zero_spec, ltb_zero_spec.
  destruct (Prim2SF p) as [s|[|]| |[|] mp ep]; simpl; try discriminate; reflexivity.
Qed.

Lemma in_select_bets_of_user_row bet i s :
  In bet (select_bets_of_user i s) ->
  exists b g, In b (Store.bets s) /\ BetRow.user_id b = i /\ bet = BetRow.with_game g b.
Proof.
  unfold select_bets_of_user. intros H. apply in_map_iff in H.
  destruct H as (b & <- & Hb). apply in_rev, filter_In in Hb. destruct Hb as [Hb E].
  exists b. eexists. apply Nat.eqb_eq in E. split; [exact Hb|split; [exact E|reflexivity]].
Qed.

Section Settled.

Variable parseFloat : string -> number.
Variable initial_balance : number.

Lemma step_well_settled a act :
  consistent a -> offered a act -> bets_ok (App.db a) -> shown_ok a ->
  (forall b, In b (Store.bets (App.db a)) -> well_settled b) ->
  forall b, In b (Store.bets (App.db (step parseFloat initial_balance a act))) ->
            well_settled b.
Proof.
  intros Hc Ho Hb Hs H.
  destruct (step_cases parseFloat initial_balance a act Hc)
    as [(E & _)|[(rawName & _ & [(u & _ & E & _)|(_ & E & _)])
       |[(now & _ & cu & sel & _ & _ & Hacc & _ & _ & Eb & _)
        |(now & bet & result & -> & cu & stored & Ecu & _ & _ & _ & _ & Eb & _)]]].
  - now rewrite E.
  - now rewrite E.
  - rewrite E. exact H.
  - rewrite Eb. intros b Hin. apply in_app_or in Hin. destruct Hin as [Hin|[<-|[]]].
    + now apply H.
    + split; [exact (stake_accepted_positive _ _ Hacc)|]. simpl. repeat split.
  - rewrite Eb. intros b' Hin. unfold rewritten in Hin. apply in_map_iff in Hin.
    destruct Hin as (b & <- & Hin).
    destruct (Nat.eqb_spec (BetRow.id b) (BetRow.id bet)) as [Ei|Ei]; [|now apply H].
    destruct Ho as [Hshown _].
    unfold shown_ok in Hs. rewrite Ecu in Hs. rewrite Hs in Hshown.
    apply in_select_bets_of_user_row in Hshown.
    destruct Hshown as (b0 & g & Hb0 & _ & ->). simpl in Ei.
    pose proof (bet_ids_unique _ _ _ Hb Hin Hb0 Ei). subst b0.
    destruct (H b Hin) as [Hpos _].
    split; [exact Hpos|]. simpl. rewrite status_of_not_pending.
    exists result, now. repeat split.
Qed.

(** X19.  Along every sequence of actions the page offers, from its initial
    state on, every stored bet has a stake above 0; a PENDING bet has no
    settlement field set; and a settled bet carries, for the result that was
    declared, the payout, the profit, the fair profit and the fair payout of
    the settlement table at the bet's own stake and odds. *)
Theorem settled_bets_carry_the_table acts :
  all_offered parseFloat initial_balance acts App.initial ->
  Forall well_settled
    (Store.bets (App.db (run parseFloat initial_balance acts App.initial))).
Proof.
  intros Ho. apply Forall_forall.
  assert (H : bets_ok (App.db (run parseFloat initial_balance acts App.initial))
              /\ shown_ok (run parseFloat initial_balance acts App.initial)
              /\ forall b,
                   In b (Store.bets (App.db (run parseFloat initial_balance acts App.initial)))
                   -> well_settled b).
  { apply (run_offered_invariant parseFloat initial_balance
             (fun a => bets_ok (App.db a) /\ shown_ok a
                       /\ forall b, In b (Store.bets (App.db a)) -> well_settled b)).
    - intros a act Hc Hoa (Hb & Hs & Hw). split; [|split].
      + now apply step_bets_ok.
      + now apply step_shown_ok.
      + now apply step_well_settled.
    - exact Ho.
    - apply initial_consistent.
    - split; [|split].
      + split; [intros [|i] b; discriminate|intros tx i []].
      + reflexivity.
      + intros b []. }
  apply H.
Qed.

End Settled.

(** The sample bet is placed, then settled as lost from its row in the
    list. *)
Lemma settled_bets_carry_the_table_example :
  all_offered sample_parseFloat 1000
    (sample_actions ++ [SettleBet "t2" sample_bet LOST]) App.initial
  /\ Forall well_settled
       (Store.bets
          (App.db (run sample_parseFloat 1000
                     (sample_actions ++ [SettleBet "t2" sample_bet LOST]) App.initial))).
Proof.
  assert (H : all_offered sample_parseFloat 1000
                (sample_actions ++ [SettleBet "t2" sample_bet LOST]) App.initial).
  { simpl. repeat split. left. reflexivity. }
  split; [exact H|].
  exact (settled_bets_carry_the_table sample_parseFloat 1000
           (sample_actions ++ [SettleBet "t2" sample_bet LOST]) H).
Defined.
